(** * Shallow embedding of NeMo's [multi_head_attention.py]

    Source: nemo/collections/asr/parts/submodules/multi_head_attention.py

    Tensors are modelled the way the code manipulates them: a row-major
    contiguous storage (a flat list) whose [view] only reinterprets the
    shape, nested lists for the per-(batch, head) matrices, and Python's
    slice semantics (negative bounds counted from the end, clamped to the
    length) for every [x[a:b]] read or write. *)

From Stdlib Require Import ZArith List Lia Bool Reals Lra.
Import ListNotations.

Open Scope nat_scope.

(** ** Python slices over lists *)
Module Py.

(** Normalisation of one slice bound against a length [n]
    (CPython's [PySlice_AdjustIndices] for a step of 1). *)
Definition norm (n : nat) (i : Z) : nat :=
  if (i <? 0)%Z then Z.to_nat (Z.max 0 (i + Z.of_nat n))
  else Z.to_nat (Z.min i (Z.of_nat n)).

Definition lo (n : nat) (start : option Z) : nat :=
  match start with None => 0 | Some s => norm n s end.

Definition hi (n : nat) (stop : option Z) : nat :=
  match stop with None => n | Some e => norm n e end.

(** [l[start:stop]] *)
Definition getslice {A} (l : list A) (start stop : option Z) : list A :=
  let a := lo (length l) start in
  let b := hi (length l) stop in
  firstn (b - a) (skipn a l).

(** [l[start:stop] = src] on a tensor axis: the source must have the
    length of the selected range, or length 1 (broadcast); otherwise
    torch raises a shape-mismatch error ([None]). *)
Definition setslice {A} (l : list A) (start stop : option Z) (src : list A)
  : option (list A) :=
  let a := lo (length l) start in
  let b := hi (length l) stop in
  let m := b - a in
  if length src =? m then Some (firstn a l ++ src ++ skipn (a + m) l)
  else match src with
       | [x] => Some (firstn a l ++ repeat x m ++ skipn (a + m) l)
       | _ => None
       end.

(** [l[start:stop] = x] for a scalar [x] (fills the selected range). *)
Definition fill {A} (l : list A) (start stop : option Z) (x : A) : list A :=
  let a := lo (length l) start in
  let b := hi (length l) stop in
  firstn a l ++ repeat x (b - a) ++ skipn (a + (b - a)) l.

End Py.

(** ** Generic list helpers *)

(** [view]: reinterpret a contiguous storage as [k] rows of width [n]. *)
Fixpoint view_rows {A} (n k : nat) (l : list A) : list (list A) :=
  match k with
  | O => []
  | S k' => firstn n l :: view_rows n k' (skipn n l)
  end.

(** ** 4.2  [RelPositionMultiHeadAttention.rel_shift] *)
Section RelShift.
Context {A : Type} (zero : A).

(** One (batch, head) slice [x] of shape (qlen, pos_len). *)
Definition rel_shift (qlen pos_len : nat) (x : list (list A)) : list (list A) :=
  (* x = F.pad(x, pad=(1, 0))            -> (qlen, pos_len + 1) *)
  let padded := map (cons zero) x in
  (* contiguous storage of the padded tensor *)
  let flat := concat padded in
  (* x.view(b, h, -1, qlen)[:, :, 1:]: drop the first row of width qlen *)
  let dropped := skipn qlen flat in
  (* .view(b, h, qlen, pos_len) *)
  view_rows pos_len qlen dropped.

(** [matrix_bd = self.rel_shift(matrix_bd)[:, :, :, :matrix_ac.size(-1)]] *)
Definition shifted_bd (qlen pos_len time2 : nat) (raw : list (list A))
  : list (list A) :=
  map (fun row => Py.getslice row None (Some (Z.of_nat time2)))
      (rel_shift qlen pos_len raw).

End RelShift.

(** ** 4.1  [MultiHeadAttention.forward_attention]: the attention weights

    One query row of [scores] (time2 entries) with the matching row of the
    boolean [mask] ([true] = disallowed).  [torch.softmax] subtracts the row
    maximum before exponentiating; over the reals that shift cancels, so the
    softmax is written [exp x_j / sum_k exp x_k].  Dropout is the identity
    at inference. *)
Module Attn.
Open Scope R_scope.

Definition rsum (l : list R) : R := fold_right Rplus 0 l.

(** [x.masked_fill(mask, v)] on one row *)
Definition masked_fill (x : list R) (mask : list bool) (v : R) : list R :=
  map (fun p : R * bool => if snd p then v else fst p) (combine x mask).

(** [torch.softmax(x, dim=-1)] on one row *)
Definition softmax (x : list R) : list R :=
  let z := rsum (map exp x) in
  map (fun a => exp a / z) x.

(** [attn] of [forward_attention] when a mask is given:
    [torch.softmax(scores.masked_fill(mask, -10000.0), dim=-1).masked_fill(mask, 0.0)] *)
Definition attn_row (scores : list R) (mask : list bool) : list R :=
  masked_fill (softmax (masked_fill scores mask (-10000))) mask 0.

(** Whole score tensor of one (batch, head): row [t1] uses mask row [t1]
    ([mask.unsqueeze(1)] broadcasts the mask over the heads). *)
Definition attn (scores : list (list R)) (mask : list (list bool)) : list (list R) :=
  map (fun p : list R * list bool => attn_row (fst p) (snd p)) (combine scores mask).

(** Sum of a row's entries over the positions the mask leaves visible. *)
Definition sum_unmasked (a : list R) (mask : list bool) : R :=
  rsum (map fst (filter (fun p : R * bool => negb (snd p)) (combine a mask))).

(** [sum_j exp(scores_j)] over the visible positions, and the number of
    masked positions of the row. *)
Definition visible_mass (scores : list R) (mask : list bool) : R :=
  rsum (map (fun p : R * bool => exp (fst p)) (filter (fun p : R * bool => negb (snd p)) (combine scores mask))).

Definition masked_count (mask : list bool) : nat := length (filter (fun b => b) mask).

End Attn.

(** ** 4.1  [MultiHeadAttention.update_cache]

    One time frame of a (batch, time, size) tensor is an element of [F]
    (its batch x size slab); a tensor is the list of its time frames and a
    cache buffer (cache_nums, batch, time_cache, size) the list of its
    slots.  [cache] is only read; [cache_next] is written in place, so
    both buffers are threaded through as a store. *)
Module Cache.
Section UpdateCache.
Context {F : Type}.

(** The attributes [update_cache] reads: [cache_drop_size] and
    [_cache_id] (both [None] after [__init__]). *)
Record MHA := { cache_drop_size : option Z; cache_id : option nat }.

Record Buffers := { cache : option (list (list F)); cache_next : option (list (list F)) }.

(** Replace the element at index [i] (slot write [cache_next[i, ...] = ...]). *)
Fixpoint set_nth {A} (i : nat) (x : A) (l : list A) : list A :=
  match l, i with
  | [], _ => []
  | _ :: l', O => x :: l'
  | y :: l', S i' => y :: set_nth i' x l'
  end.

Definition obind {A B} (o : option A) (f : A -> option B) : option B :=
  match o with Some a => f a | None => None end.

Local Notation "x <- o ;; k" := (obind o (fun x => k)) (at level 60, right associativity).

(** [update_cache(key, value, query, cache, cache_next)]: the returned
    [(key, value, query)] and the buffers after the call; [None] is an
    exception (unset [_cache_id] / [cache_drop_size], slot index out of
    range, or a shape mismatch in a slice assignment). *)
Definition update_cache (m : MHA) (key value query : list F) (b : Buffers)
  : option ((list F * list F * list F) * Buffers) :=
  match cache b with
  | None => Some ((key, value, query), b)
  | Some c =>
      id <- cache_id m ;;
      slot <- nth_error c id ;;
      (* key = value = torch.cat([cache[self._cache_id], key], dim=1) *)
      let key' := slot ++ key in
      d <- cache_drop_size m ;;
      (* q_keep_size = query.shape[1] - self.cache_drop_size *)
      let k := (Z.of_nat (length query) - d)%Z in
      match cache_next b with
      | None => Some ((key', key', query), b)
      | Some cn =>
          nslot <- nth_error cn id ;;
          (* cache_next[id, :, :-q_keep_size, :] = cache[id, :, q_keep_size:, :] *)
          nslot1 <- Py.setslice nslot None (Some (- k)%Z) (Py.getslice slot (Some k) None) ;;
          (* cache_next[id, :, -q_keep_size:, :] = query[:, :q_keep_size, :] *)
          nslot2 <- Py.setslice nslot1 (Some (- k)%Z) None (Py.getslice query None (Some k)) ;;
          Some ((key', key', query),
                {| cache := Some c; cache_next := Some (set_nth id nslot2 cn) |})
      end
  end.
End UpdateCache.
End Cache.

(** ** 4.4  Positional encoding tables

    [create_pe] writes, for every position [p] of its [positions] argument,
    the row [sin(p * div_term)], [cos(p * div_term)] interleaved; the row
    depends on the position only, so it is the parameter [enc].  The
    buffer [self.pe] is [None] until the first [create_pe]. *)
Module PE.
Section Tables.
Context {Row : Type} (enc : Z -> Row).

(** [torch.arange(start, stop)] (step 1) on integer bounds *)
Definition arange (start stop : Z) : list Z :=
  map (fun i => (start + Z.of_nat i)%Z) (seq 0 (Z.to_nat (stop - start))).

(** [torch.arange(start, stop, -1)] *)
Definition arange_desc (start stop : Z) : list Z :=
  map (fun i => (start - Z.of_nat i)%Z) (seq 0 (Z.to_nat (start - stop))).

Definition create_pe (positions : list Z) : list Row := map enc positions.

(** [self.pe.size(1)] *)
Definition size1 (t : list Row) : Z := Z.of_nat (length t).

(** [PositionalEncoding.extend_pe] *)
Definition abs_extend_pe (length : Z) (pe : option (list Row)) : option (list Row) :=
  match pe with
  | Some t => if (length <=? size1 t)%Z then pe else Some (create_pe (arange 0 length))
  | None => Some (create_pe (arange 0 length))
  end.

(** [RelPositionalEncoding.extend_pe] *)
Definition rel_extend_pe (length : Z) (pe : option (list Row)) : option (list Row) :=
  let needed_size := (2 * length - 1)%Z in
  let positions := arange_desc (length - 1) (- length) in
  match pe with
  | Some t => if (needed_size <=? size1 t)%Z then pe else Some (create_pe positions)
  | None => Some (create_pe positions)
  end.

(** [RelPositionalEncoding.forward]: the returned [pos_emb]; [None] when
    [self.pe] was never built (AttributeError).  [T] is [x.size(1)]. *)
Definition rel_forward (pe : option (list Row)) (T cache_len : nat) : option (list Row) :=
  match pe with
  | None => None
  | Some t =>
      let input_len := Z.of_nat (T + cache_len) in
      let center_pos := (size1 t / 2 + 1)%Z in
      let start_pos := (center_pos - input_len)%Z in
      let end_pos := (center_pos + input_len - 1)%Z in
      Some (Py.getslice t (Some start_pos) (Some end_pos))
  end.

(** [LocalAttRelPositionalEncoding.extend_pe]; [left], [right] are
    [att_context_size[0]], [att_context_size[1]]. *)
Definition local_extend_pe (left right : Z) (length : Z) (pe : option (list Row))
  : option (list Row) :=
  match pe with
  | Some _ => pe
  | None => Some (create_pe (arange_desc left (- right - 1)))
  end.

(** [LocalAttRelPositionalEncoding.forward]: the returned [pos_emb] *)
Definition local_forward (left right : Z) (pe : option (list Row)) : option (list Row) :=
  match pe with
  | None => None
  | Some t => Some (Py.getslice t None (Some (left + right + 1)%Z))
  end.
End Tables.
End PE.

(** ** 4.3  [RelPositionMultiHeadAttentionLongformer]

    One batch element: a (time, size) tensor is the list of its time rows,
    a (head, time, d_k) tensor the list of its heads.  Every
    (batch x head) slice of the chunked products is handled separately,
    exactly as the [bsz * num_heads] leading axis of the code does.  Entries
    of the banded score tensor are floats that may be [-inf]. *)
Module Banded.

Local Notation "x <- o ;; k" := (Cache.obind o (fun x => k)) (at level 60, right associativity).

Inductive xr := Fin (r : R) | NInf.

Definition xadd (a b : xr) : xr :=
  match a, b with Fin x, Fin y => Fin (x + y)%R | _, _ => NInf end.

(** division by the positive [s_d_k] *)
Definition xdiv (a : xr) (s : R) : xr :=
  match a with Fin x => Fin (x / s)%R | NInf => NInf end.

Definition xexp (a : xr) : R := match a with Fin x => exp x | NInf => 0%R end.

Fixpoint otraverse {A B} (f : A -> option B) (l : list A) : option (list B) :=
  match l with
  | [] => Some []
  | x :: l' => y <- f x ;; ys <- otraverse f l' ;; Some (y :: ys)
  end.

(** *** Dense linear algebra *)
Definition dot (x y : list R) : R :=
  fold_right Rplus 0%R (map (fun p : R * R => (fst p * snd p)%R) (combine x y)).

(** [a @ b.transpose(-2, -1)] *)
Definition matmul_nt (a b : list (list R)) : list (list R) :=
  map (fun r => map (dot r) b) a.

(** [a @ b] for [b] with [ncols] columns *)
Definition matmul (a b : list (list R)) (ncols : nat) : list (list R) :=
  map (fun r => map (fun e => dot r (map (fun row => nth e row 0%R) b)) (seq 0 ncols)) a.

Definition vadd (x y : list R) : list R :=
  map (fun p : R * R => (fst p + snd p)%R) (combine x y).

(** [nn.Linear] with and without bias: [y_i = sum_j W[i][j] x_j (+ b_i)] *)
Record Linear := { weight : list (list R); bias : list R }.

Definition linear (l : Linear) (x : list R) : list R :=
  map (fun p : list R * R => (dot (fst p) x + snd p)%R) (combine (weight l) (bias l)).

Definition linear_nb (W : list (list R)) (x : list R) : list R := map (fun row => dot row x) W.

(** [x.view(n_batch, -1, h, d_k).transpose(1, 2)] *)
Definition split_heads (h d_k : nat) (x : list (list R)) : list (list (list R)) :=
  map (fun i => map (fun row => firstn d_k (skipn (i * d_k) row)) x) (seq 0 h).

(** [x.transpose(1, 2).reshape(n_batch, -1, h * d_k)] *)
Definition merge_heads (time : nat) (x : list (list (list R))) : list (list R) :=
  map (fun t => concat (map (fun c => nth t c []) x)) (seq 0 time).

(** The module's parameters and attributes. *)
Record Params := {
  h : nat;
  d_k : nat;
  linear_q : Linear; linear_k : Linear; linear_v : Linear; linear_out : Linear;
  linear_pos : list (list R);
  pos_bias_u : list (list R);
  pos_bias_v : list (list R);
  att_context_size : Z * Z }.

(** [forward_qkv] *)
Definition forward_qkv (P : Params) (query key value : list (list R))
  : list (list (list R)) * list (list (list R)) * list (list (list R)) :=
  (split_heads (h P) (d_k P) (map (linear (linear_q P)) query),
   split_heads (h P) (d_k P) (map (linear (linear_k P)) key),
   split_heads (h P) (d_k P) (map (linear (linear_v P)) value)).

(** *** Slices of 3-d tensors *)
Definition sl := (option Z * option Z)%type.

(** number of indices a slice selects on an axis of size [n] *)
Definition extent (n : nat) (s : sl) : nat := Py.hi n (snd s) - Py.lo n (fst s).

Definition get3 {A} (t : list (list (list A))) (s0 s1 s2 : sl) : list (list (list A)) :=
  map (fun m => map (fun r => Py.getslice r (fst s2) (snd s2)) (Py.getslice m (fst s1) (snd s1)))
      (Py.getslice t (fst s0) (snd s0)).

Definition compat (e m : nat) : bool := (m =? e) || (m =? 1).
Definition bcast (m i : nat) : nat := if m =? 1 then 0 else i.
Definition in_range (a e i : nat) : bool := (a <=? i) && (i <? a + e).

(** [t[s0, s1, s2] = src] on a tensor of shape (n0, n1, n2), [src] of
    shape (m0, m1, m2): each source axis must match the selected extent or
    be 1 (broadcast), otherwise torch raises. *)
Definition set3 {A} (d : A) (t : list (list (list A))) (n0 n1 n2 : nat) (s0 s1 s2 : sl)
    (src : list (list (list A))) (m0 m1 m2 : nat) : option (list (list (list A))) :=
  let a0 := Py.lo n0 (fst s0) in let e0 := extent n0 s0 in
  let a1 := Py.lo n1 (fst s1) in let e1 := extent n1 s1 in
  let a2 := Py.lo n2 (fst s2) in let e2 := extent n2 s2 in
  if compat e0 m0 && compat e1 m1 && compat e2 m2 then
    Some (map (fun i0 => map (fun i1 => map (fun i2 =>
            if in_range a0 e0 i0 && in_range a1 e1 i1 && in_range a2 e2 i2
            then nth (bcast m2 (i2 - a2)) (nth (bcast m1 (i1 - a1)) (nth (bcast m0 (i0 - a0)) src []) []) d
            else nth i2 (nth i1 (nth i0 t []) []) d)
          (seq 0 n2)) (seq 0 n1)) (seq 0 n0))
  else None.

(** [x.as_strided(size=(n0, n1, n2), stride=(s0, s1, s2))] over the
    contiguous storage [st] of one (batch x head) slice *)
Definition as_strided3 {A} (d : A) (st : list A) (n0 n1 n2 s0 s1 s2 : nat) : list (list (list A)) :=
  map (fun i0 => map (fun i1 => map (fun i2 => nth (i0 * s0 + i1 * s1 + i2 * s2) st d)
    (seq 0 n2)) (seq 0 n1)) (seq 0 n0).

(** *** [sliding_chunks_matmul_qk] *)

(** [_chunk_overlap(x, w)] on a slice of [seqlen] rows of width [hd]:
    [x.view(.., seqlen // (2w), 2w, hd)] has strides (2w hd, hd, 1); the
    chunk count becomes [2 n - 1] and the chunk stride is halved. *)
Definition chunk_overlap (seqlen hd w : nat) (x : list (list R)) : list (list (list R)) :=
  let n := seqlen / (w * 2) in
  as_strided3 0%R (concat x) (n * 2 - 1) (w * 2) hd ((w * 2 * hd) / 2) hd 1.

(** [_skew(x, direction=(0, 0, 0, 1), padding_value)] on one 2w x 2w
    chunk: one padding row below, then [view(2w, 2w + 1)]. *)
Definition skew (w : nat) (pad : R) (c : list (list R)) : list (list R) :=
  view_rows (w * 2 + 1) (w * 2) (concat (c ++ [repeat pad (w * 2)])).

(** [_get_invalid_locations_mask(w)] *)
Definition diagonal_mask (w : nat) (j : Z) : list bool :=
  Py.fill (repeat false w) None (Some (- j)%Z) true.

Definition beginning_mask (w : nat) : list (list bool) :=
  let diagonals := map (fun jj => diagonal_mask w (Z.of_nat jj - Z.of_nat w)) (seq 0 (w + 1)) in
  (* torch.stack(diagonals_list, dim=-1) *)
  map (fun r => map (fun dg => nth r dg false) diagonals) (seq 0 w).

(** [mask.flip(dims=(2, 3))] *)
Definition ending_mask (w : nat) : list (list bool) := rev (map (@rev bool) (beginning_mask w)).

(** [input[r0:, c0:][...].masked_fill_(m, -inf)] through a view whose
    top-left corner is [(r0, c0)] *)
Definition masked_fill_at (t : list (list xr)) (r0 c0 : nat) (m : list (list bool)) : list (list xr) :=
  map (fun p : nat * list xr =>
         map (fun q : nat * xr =>
                if (r0 <=? fst p) && (c0 <=? fst q) && nth (fst q - c0) (nth (fst p - r0) m []) false
                then NInf else snd q)
             (combine (seq 0 (length (snd p))) (snd p)))
      (combine (seq 0 (length t)) t).

(** [mask_invalid_locations(input_tensor, w)] on one (seqlen, 2w + 1) slice *)
Definition mask_invalid_locations (w : nat) (t : list (list xr)) : list (list xr) :=
  let seq_len := length t in
  let bm := Py.getslice (beginning_mask w) None (Some (Z.of_nat seq_len)) in
  let t1 := masked_fill_at t 0 0 bm in
  let em := Py.getslice (ending_mask w) (Some (- Z.of_nat seq_len)%Z) None in
  masked_fill_at t1 (Py.lo seq_len (Some (- Z.of_nat w)%Z)) (Py.lo (w * 2 + 1) (Some (- (Z.of_nat w + 1))%Z)) em.

(** [sliding_chunks_matmul_qk(q, k, w, padding_value)] on one slice of
    [seqlen] rows of width [hd]; [junk] is the content [new_empty] leaves
    in the entries no slice assignment writes.  [None]: a failed [assert],
    a chunk count of [-1] ([as_strided] raises) or a shape mismatch. *)
Definition sliding_chunks_matmul_qk (junk : xr) (w : nat) (pad : R) (hd : nat)
    (q k : list (list R)) : option (list (list xr)) :=
  let seqlen := length q in
  if negb (seqlen mod (w * 2) =? 0) || negb (length k =? seqlen) || (seqlen =? 0) then None else
  let chunks_count := seqlen / w - 1 in
  let chunk_q := chunk_overlap seqlen hd w q in
  let chunk_k := chunk_overlap seqlen hd w k in
  (* torch.einsum('bcxd,bcyd->bcxy', (chunk_q, chunk_k)) *)
  let chunk_attn := map (fun p => matmul_nt (fst p) (snd p)) (combine chunk_q chunk_k) in
  let dca := map (fun c => map (map Fin) (skew w pad c)) chunk_attn in
  let wz := Z.of_nat w in
  let n0 := chunks_count + 1 in let n1 := w in let n2 := w * 2 + 1 in
  let c0 := chunks_count in let c1 := w * 2 in let c2 := w * 2 + 1 in
  let da := repeat (repeat (repeat junk n2) n1) n0 in
  (* diagonal_attn[:, :-1, :, w:] = diagonal_chunk_attn[:, :, :w, : w + 1] *)
  da <- set3 NInf da n0 n1 n2 (None, Some (-1)%Z) (None, None) (Some wz, None)
          (get3 dca (None, None) (None, Some wz) (None, Some (wz + 1)%Z))
          (extent c0 (None, None)) (extent c1 (None, Some wz)) (extent c2 (None, Some (wz + 1)%Z)) ;;
  (* diagonal_attn[:, -1, :, w:] = diagonal_chunk_attn[:, -1, w:, : w + 1] *)
  da <- set3 NInf da n0 n1 n2 (Some (-1)%Z, None) (None, None) (Some wz, None)
          (get3 dca (Some (-1)%Z, None) (Some wz, None) (None, Some (wz + 1)%Z))
          (extent c0 (Some (-1)%Z, None)) (extent c1 (Some wz, None)) (extent c2 (None, Some (wz + 1)%Z)) ;;
  (* diagonal_attn[:, 1:, :, :w] = diagonal_chunk_attn[:, :, -(w + 1) : -1, w + 1 :] *)
  da <- set3 NInf da n0 n1 n2 (Some 1%Z, None) (None, None) (None, Some wz)
          (get3 dca (None, None) (Some (- (wz + 1))%Z, Some (-1)%Z) (Some (wz + 1)%Z, None))
          (extent c0 (None, None)) (extent c1 (Some (- (wz + 1))%Z, Some (-1)%Z))
          (extent c2 (Some (wz + 1)%Z, None)) ;;
  (* diagonal_attn[:, 0, 1:w, 1:w] = diagonal_chunk_attn[:, 0, : w - 1, 1 - w :] *)
  da <- set3 NInf da n0 n1 n2 (Some 0%Z, Some 1%Z) (Some 1%Z, Some wz) (Some 1%Z, Some wz)
          (get3 dca (Some 0%Z, Some 1%Z) (None, Some (wz - 1)%Z) (Some (1 - wz)%Z, None))
          (extent c0 (Some 0%Z, Some 1%Z)) (extent c1 (None, Some (wz - 1)%Z))
          (extent c2 (Some (1 - wz)%Z, None)) ;;
  (* diagonal_attn.view(bsz, num_heads, seqlen, 2 * w + 1) *)
  Some (mask_invalid_locations w (concat da)).

(** *** [sliding_chunks_matmul_pv] *)

(** [_skew2(x, padding_value)] on one chunk of [M = w] rows of
    [L = 2w + 1] entries *)
Definition skew2 (w : nat) (pad : R) (x : list (list R)) : list (list R) :=
  let M := w in let L := w * 2 + 1 in
  let padded := map (fun r => r ++ repeat pad (M + 1)) x in
  let flat := Py.getslice (concat padded) None (Some (- Z.of_nat M)%Z) in
  map (fun r => Py.getslice r None (Some (-1)%Z)) (view_rows (M + L) M flat).

Definition sliding_chunks_matmul_pv (w seqlen hd : nat) (prob v : list (list R)) : list (list R) :=
  let chunks_count := seqlen / w - 1 in
  (* prob.reshape(bsz * num_heads, seqlen // w, w, 2 * w + 1) *)
  let chunk_prob := view_rows w (seqlen / w) prob in
  (* F.pad(v, (0, 0, w, w), value=-1) *)
  let padded_v := repeat (repeat (-1)%R hd) w ++ v ++ repeat (repeat (-1)%R hd) w in
  let chunk_v := as_strided3 0%R (concat padded_v) (chunks_count + 1) (3 * w) hd (w * hd) hd 1 in
  let skewed_prob := map (skew2 w 0%R) chunk_prob in
  (* torch.einsum('bcwd,bcdh->bcwh', (skewed_prob, chunk_v)) *)
  let context := map (fun p => matmul (fst p) (snd p) hd) (combine skewed_prob chunk_v) in
  concat context.

(** *** The banded score combination (lines 318-338) on one row

    Generic in the entry type: [add] is [+], [scale] the division by
    [s_d_k], [fill] the constant [-10000.0]. *)
Section Combine.
Context {K : Type} (add : K -> K -> K) (scale : K -> K) (fill : K).

(** [x[start:stop] += y]: the slice is read, added elementwise ([y]
    broadcast when it has one entry) and written back *)
Definition iadd_slice (x : list K) (start stop : option Z) (y : list K) : option (list K) :=
  let xs := Py.getslice x start stop in
  s <- (if length y =? length xs then Some (map (fun p : K * K => add (fst p) (snd p)) (combine xs y))
        else match y with [c] => Some (map (fun a => add a c) xs) | _ => None end) ;;
  Py.setslice x start stop s.

Definition combine_row (w : nat) (left right : Z) (ac bd : list K) : option (list K) :=
  let start_pos := (Z.of_nat w - left)%Z in
  let end_pos := (Z.of_nat w + right)%Z in
  (* diagonal_matrix_ac[..., :left] += diagonal_matrix_bd[..., :left] *)
  ac <- iadd_slice ac None (Some left) (Py.getslice bd None (Some left)) ;;
  (* diagonal_matrix_ac[..., -(right + 1):] += diagonal_matrix_bd[..., left:] *)
  ac <- iadd_slice ac (Some (- (right + 1))%Z) None (Py.getslice bd (Some left) None) ;;
  (* scores = diagonal_matrix_ac / self.s_d_k *)
  let scores := map scale ac in
  (* scores[..., :start_pos] = -10000.0; scores[..., end_pos + 1:] = -10000.0 *)
  let scores := Py.fill scores None (Some start_pos) fill in
  Some (Py.fill scores (Some (end_pos + 1)%Z) None fill).
End Combine.

(** [torch.softmax] of a row with [-inf] entries ([exp(-inf) = 0]) *)
Definition softmax_x (row : list xr) : list R :=
  let z := Attn.rsum (map xexp row) in
  map (fun a => (xexp a / z)%R) row.

(** Lines 294-357 of [forward], after [forward_qkv], for [w > 0]. *)
Definition longformer_core (P : Params) (w : nat) (left right : Z) (junk : xr) (T : nat)
    (q k v : list (list (list R))) (pad_mask : list bool) (pos_emb : list (list R))
    : option (list (list R)) :=
  let pad_len := (2 * w - T mod (2 * w)) mod (2 * w) in
  let padt := fun x : list (list R) => x ++ repeat (repeat 0%R (d_k P)) pad_len in
  let q := map padt q in
  let k := map padt k in
  let v := map padt v in
  (* F.pad(pad_mask, (0, pad_len), value=1.0) *)
  let mask := pad_mask ++ repeat true pad_len in
  let seqlen := T + pad_len in
  let s_d_k := sqrt (INR (d_k P)) in
  let p := split_heads (h P) (d_k P) (map (linear_nb (linear_pos P)) pos_emb) in
  (* float_mask and ones: (batch, 1, time, 1) *)
  let float_mask := map (fun b : bool => [if b then (-10000)%R else 0%R]) mask in
  let ones := map (fun _ : bool => [1%R]) mask in
  d_mask <- sliding_chunks_matmul_qk junk w 0%R 1 ones float_mask ;;
  ctx <- otraverse (fun i =>
      let qi := nth i q [] in
      let q_with_bias_u := map (fun row => vadd row (nth i (pos_bias_u P) [])) qi in
      let q_with_bias_v := map (fun row => vadd row (nth i (pos_bias_v P) [])) qi in
      ac <- sliding_chunks_matmul_qk junk w 0%R (d_k P) q_with_bias_u (nth i k []) ;;
      let bd := matmul_nt q_with_bias_v (nth i p []) in
      scores <- otraverse (fun r : list xr * list R =>
                  combine_row xadd (fun a => xdiv a s_d_k) (Fin (-10000)%R) w left right
                    (fst r) (map Fin (snd r))) (combine ac bd) ;;
      (* scores += d_mask *)
      let scores := map (fun r : list xr * list xr => map (fun e : xr * xr => xadd (fst e) (snd e))
                                                   (combine (fst r) (snd r))) (combine scores d_mask) in
      (* torch.softmax(scores, dim=-1).masked_fill(mask, 0.0) *)
      let attn := map (fun r : list xr * bool => if snd r then repeat 0%R (length (fst r))
                                                 else softmax_x (fst r)) (combine scores mask) in
      Some (sliding_chunks_matmul_pv w seqlen (d_k P) attn (nth i v []))) (seq 0 (h P)) ;;
  (* .reshape(n_batch, -1, h * d_k)[:, :T], then linear_out *)
  Some (map (linear (linear_out P)) (firstn T (merge_heads seqlen ctx))).

Inductive error := ValueError | RuntimeError.

(** [RelPositionMultiHeadAttentionLongformer.forward]: the output or the
    exception raised, and the buffers afterwards.  An exception inside
    [update_cache] is reported with the buffers as before the call. *)
Definition forward (P : Params) (m : Cache.MHA) (junk : xr) (query key value : list (list R))
    (pad_mask : list bool) (pos_emb : list (list R)) (b : @Cache.Buffers (list R))
    : (list (list R) + error) * @Cache.Buffers (list R) :=
  match Cache.update_cache m key value query b with
  | None => (inr RuntimeError, b)
  | Some (kvq, b') =>
      let '(key', value', query') := kvq in
      let '(q, k, v) := forward_qkv P query' key' value' in
      let T := length query' in
      let left := fst (att_context_size P) in
      let right := snd (att_context_size P) in
      let w := Z.max left right in
      if (w <=? 0)%Z then (inr ValueError, b')
      else (match longformer_core P (Z.to_nat w) left right junk T q k v pad_mask pos_emb with
            | Some x => inl x
            | None => inr RuntimeError
            end, b')
  end.

(** [RelPositionMultiHeadAttention.forward] with [cache = None] (then
    [update_cache] returns its arguments) and a [mask] of shape
    (time1, time2): the dense engine. *)
Definition rel_mha_forward (P : Params) (query key value : list (list R))
    (mask : list (list bool)) (pos_emb : list (list R)) : list (list R) :=
  let '(q, k, v) := forward_qkv P query key value in
  let s_d_k := sqrt (INR (d_k P)) in
  let p := split_heads (h P) (d_k P) (map (linear_nb (linear_pos P)) pos_emb) in
  let ctx := map (fun i =>
      let qi := nth i q [] in
      let ki := nth i k [] in
      let q_with_bias_u := map (fun row => vadd row (nth i (pos_bias_u P) [])) qi in
      let q_with_bias_v := map (fun row => vadd row (nth i (pos_bias_v P) [])) qi in
      let matrix_ac := matmul_nt q_with_bias_u ki in
      let matrix_bd := matmul_nt q_with_bias_v (nth i p []) in
      let matrix_bd := shifted_bd 0%R (length qi) (length (nth i p [])) (length ki) matrix_bd in
      let scores := map (fun r : list R * list R =>
                           map (fun e : R * R => ((fst e + snd e) / s_d_k)%R) (combine (fst r) (snd r)))
                        (combine matrix_ac matrix_bd) in
      matmul (Attn.attn scores mask) (nth i v []) (d_k P)) (seq 0 (h P)) in
  map (linear (linear_out P)) (merge_heads (length query) ctx).

(** Modelled from the claim: the dense score mask of the band of relative
    offsets [-left, +right] ([true] = masked) for [T] queries and keys. *)
Definition band_mask (left right : Z) (T : nat) : list (list bool) :=
  map (fun i => map (fun j => negb ((- left <=? Z.of_nat j - Z.of_nat i) && (Z.of_nat j - Z.of_nat i <=? right))%Z)
                    (seq 0 T)) (seq 0 T).

End Banded.

(** ** Inputs used by the statements about the banded engine

    One head of width 1, identity projections, zero [pos_bias_u] and
    [pos_bias_v]; the positional row is [1] at relative position 0 and [0]
    elsewhere, so the only positional term is the one of offset 0. *)
Definition unit_linear : Banded.Linear := {| Banded.weight := [[1%R]]; Banded.bias := [0%R] |}.

Definition unit_params (left right : Z) : Banded.Params :=
  {| Banded.h := 1; Banded.d_k := 1;
     Banded.linear_q := unit_linear; Banded.linear_k := unit_linear;
     Banded.linear_v := unit_linear; Banded.linear_out := unit_linear;
     Banded.linear_pos := [[1%R]];
     Banded.pos_bias_u := [[0%R]]; Banded.pos_bias_v := [[0%R]];
     Banded.att_context_size := (left, right) |}.

Definition offset0_enc (p : Z) : list R := [if (p =? 0)%Z then 1%R else 0%R].

(** a freshly constructed module ([cache_drop_size], [_cache_id] unset) and
    no cache buffers *)
Definition fresh_mha : Cache.MHA := {| Cache.cache_drop_size := None; Cache.cache_id := None |}.

Definition no_buffers : @Cache.Buffers (list R) := {| Cache.cache := None; Cache.cache_next := None |}.

(** ** 4.4  [PositionalEncoding.create_pe] and [PositionalEncoding.forward]

    The sinusoid table itself, and the absolute encoding's [forward] on one
    batch element (the [pos_emb] batch axis of size 1 broadcasts over the
    batch).  Dropout is the identity at inference. *)
Module Sinusoid.

(** number of indices [off, off + 2, ...] below [n]: the length of the
    slice [off::2] *)
Definition step2_extent (n off : nat) : nat := (n - off + 1) / 2.

(** [pe[:, off::2] = src] on one row: index [off + 2 j] receives [src[j]]
    ([src[0]] when [src] has one entry, broadcast); the shape check is
    made once for the whole table in [create_pe]. *)
Definition set_step2 (row : list R) (off : nat) (src : list R) : list R :=
  map (fun i => if (off <=? i) && Nat.even (i - off)
                then nth (Banded.bcast (length src) ((i - off) / 2)) src 0%R
                else nth i row 0%R)
      (seq 0 (length row)).

(** [div_term = exp(arange(0, d_model, 2) * -(log(10000.0) / d_model))] *)
Definition div_term (d_model : nat) : list R :=
  map (fun i => exp (INR (2 * i) * - (ln 10000 / INR d_model)))
      (seq 0 (step2_extent d_model 0)).

(** The row [create_pe] writes for position [p]. *)
Definition pe_row (d_model : nat) (p : Z) : list R :=
  let dv := div_term d_model in
  let row := repeat 0%R d_model in
  let row := set_step2 row 0 (map (fun t => sin (IZR p * t)) dv) in
  set_step2 row 1 (map (fun t => cos (IZR p * t)) dv).

(** [create_pe(positions)]: the new table, or [None] when it raises.
    [d_model = 0] divides by zero in [div_term]; the two column
    assignments raise when [positions * div_term], one column per even
    index, fits neither the odd-index columns nor broadcasts (one column). *)
Definition create_pe (d_model : nat) (positions : list Z) : option (list (list R)) :=
  if d_model =? 0 then None else
  let m := length (div_term d_model) in
  if Banded.compat (step2_extent d_model 0) m && Banded.compat (step2_extent d_model 1) m
  then Some (map (pe_row d_model) positions)
  else None.

(** [PositionalEncoding.extend_pe(length)]: the table after the call, or
    [None] when it raises; [pe] is [None] while no table was built
    ([hasattr(self, 'pe')] is false). *)
Definition extend_pe (d_model : nat) (length : Z) (pe : option (list (list R)))
  : option (list (list R)) :=
  match pe with
  | Some t => if (length <=? PE.size1 t)%Z then Some t
              else create_pe d_model (PE.arange 0 length)
  | None => create_pe d_model (PE.arange 0 length)
  end.

(** [a + b] along one axis with torch broadcasting: equal lengths, or
    one side of length 1; otherwise a shape error. *)
Definition bcast_zip {A} (f : A -> A -> option A) (xs ys : list A) : option (list A) :=
  if length xs =? length ys then Banded.otraverse (fun p : A * A => f (fst p) (snd p)) (combine xs ys)
  else match ys, xs with
       | [y], _ => Banded.otraverse (fun x => f x y) xs
       | _, [x] => Banded.otraverse (fun y => f x y) ys
       | _, _ => None
       end.

(** [x + pos_emb] for a (time, feature) [x] and a (time', feature) [pos_emb] *)
Definition add_rows (x p : list (list R)) : option (list (list R)) :=
  bcast_zip (fun r s => bcast_zip (fun a b => Some (a + b)%R) r s) x p.

(** [if self.xscale: x = x * self.xscale]; [None] and [0.0] are falsy *)
Definition scale_input (xscale : option R) (x : list (list R)) : list (list R) :=
  match xscale with
  | Some s => if Req_dec_T s 0 then x else map (map (fun a => (a * s)%R)) x
  | None => x
  end.

(** [PositionalEncoding.forward(x)]: [(x + pos_emb, pos_emb)], or [None]
    when it raises ([self.pe] never built, or no broadcast). *)
Definition abs_forward (xscale : option R) (pe : option (list (list R))) (x : list (list R))
  : option (list (list R) * list (list R)) :=
  match pe with
  | None => None
  | Some t =>
      let x := scale_input xscale x in
      let pos_emb := Py.getslice t None (Some (Z.of_nat (length x))) in
      match add_rows x pos_emb with
      | Some y => Some (y, pos_emb)
      | None => None
      end
  end.

End Sinusoid.

(** ** 4.1  [MultiHeadAttention.forward_attention] and [MultiHeadAttention.forward]

    One batch element; [scores] and [value] are lists of heads.  [forward]
    is the call with [cache = None], where [update_cache] returns its
    arguments unchanged. *)
Module Dense.
Import Banded.

(** [forward_attention(value, scores, mask)]: [mask] (time1, time2) is
    shared by the heads ([mask.unsqueeze(1)]); the rows of the result are
    [scores.size(2)] = time1. *)
Definition forward_attention (P : Params) (value scores : list (list (list R)))
    (mask : option (list (list bool))) : list (list R) :=
  let attn := map (fun s => match mask with
                            | Some m => Attn.attn s m
                            | None => map Attn.softmax s
                            end) scores in
  (* x = torch.matmul(p_attn, value) *)
  let x := map (fun p => matmul (fst p) (snd p) (d_k P)) (combine attn value) in
  (* x.transpose(1, 2).reshape(n_batch, -1, self.h * self.d_k) *)
  map (linear (linear_out P)) (merge_heads (length (hd [] scores)) x).

(** [forward(query, key, value, mask)] without a cache *)
Definition forward (P : Params) (query key value : list (list R))
    (mask : option (list (list bool))) : list (list R) :=
  let '(q, k, v) := forward_qkv P query key value in
  let s_d_k := sqrt (INR (d_k P)) in
  (* scores = torch.matmul(q, k.transpose(-2, -1)) / self.s_d_k *)
  let scores := map (fun p => map (map (fun a => (a / s_d_k)%R)) (matmul_nt (fst p) (snd p)))
                    (combine q k) in
  forward_attention P v scores mask.

End Dense.

(** * Proofs *)

(** ** List lemmas *)

Lemma nth_skipn_add {A} (l : list A) q m d :
  nth m (skipn q l) d = nth (q + m) l d.
Proof.
  revert l; induction q as [|q IH]; intros [|x l]; simpl; auto.
  destruct m; reflexivity.
Qed.

Lemma nth_firstn_lt {A} (l : list A) n j d :
  j < n -> nth j (firstn n l) d = nth j l d.
Proof.
  revert l j; induction n as [|n IH]; intros [|x l] j Hj; simpl; try lia; auto.
  destruct j; simpl; auto. apply IH; lia.
Qed.

Lemma nth_view_rows {A} n k (l : list A) i j d :
  i < k -> j < n -> nth j (nth i (view_rows n k l) []) d = nth (i * n + j) l d.
Proof.
  revert l i; induction k as [|k IH]; intros l i Hi Hj; [lia|].
  destruct i as [|i]; simpl.
  - now apply nth_firstn_lt.
  - rewrite IH by lia. rewrite nth_skipn_add. f_equal. lia.
Qed.

Lemma nth_map_lt {A B} (f : A -> B) (l : list A) n (d : B) (d' : A) :
  n < length l -> nth n (map f l) d = f (nth n l d').
Proof.
  intros H. rewrite (nth_indep _ d (f d')) by (rewrite length_map; exact H).
  apply map_nth.
Qed.

Lemma length_view_rows {A} n k (l : list A) : length (view_rows n k l) = k.
Proof. revert l; induction k; simpl; auto. Qed.

Lemma nth_concat_uniform {A} n (rows : list (list A)) r k d :
  Forall (fun x => length x = n) rows -> k < n ->
  nth (r * n + k) (concat rows) d = nth k (nth r rows []) d.
Proof.
  intros HF Hk; revert r; induction HF as [|x xs Hx HF IH]; intros r.
  - assert (E2 : nth r (@nil (list A)) [] = []) by (destruct r; reflexivity).
    simpl concat. rewrite E2. destruct (r * n + k), k; reflexivity.
  - simpl. destruct r as [|r].
    + rewrite app_nth1 by lia. f_equal.
    + rewrite app_nth2 by lia. rewrite <- IH. f_equal. lia.
Qed.

Lemma nth_getslice_prefix {A} (row : list A) T j d :
  j < T -> nth j (Py.getslice row None (Some (Z.of_nat T))) d = nth j row d.
Proof.
  intros Hj. unfold Py.getslice, Py.lo, Py.hi, Py.norm.
  replace (Z.of_nat T <? 0)%Z with false by (symmetry; apply Z.ltb_ge; lia).
  rewrite Nat.sub_0_r. simpl skipn.
  destruct (Nat.lt_ge_cases j (length row)) as [Hl|Hl].
  - apply nth_firstn_lt. lia.
  - rewrite nth_overflow by (rewrite length_firstn; lia).
    rewrite nth_overflow by lia. reflexivity.
Qed.

(** ** C2 *)

Example rel_shift_3 :
  shifted_bd 0 3 5 3 [[1;2;3;4;5];[6;7;8;9;10];[11;12;13;14;15]]
  = [[3;4;5];[7;8;9];[11;12;13]].
Proof. reflexivity. Qed.

(** C2: after [rel_shift] and the truncation to [matrix_ac]'s width, entry
    [bd[i, j]] of a (T, 2T-1) content-position score table [raw] is
    [raw[i, j - i + (T - 1)]]: it is read against relative offset [j - i]. *)
Theorem rel_shift_reads_offset {A} (zero : A) (T : nat) (raw : list (list A)) :
  length raw = T ->
  Forall (fun r => length r = 2 * T - 1) raw ->
  forall i j, i < T -> j < T ->
  nth j (nth i (shifted_bd zero T (2 * T - 1) T raw) []) zero
  = nth (T - 1 + j - i) (nth i raw []) zero.
Proof.
  intros Hlen HF i j Hi Hj.
  unfold shifted_bd.
  rewrite (nth_indep _ [] (Py.getslice [] None (Some (Z.of_nat T))))
    by (rewrite length_map; unfold rel_shift; rewrite length_view_rows; lia).
  rewrite (map_nth (fun row => Py.getslice row None (Some (Z.of_nat T)))).
  rewrite nth_getslice_prefix by exact Hj.
  unfold rel_shift.
  rewrite nth_view_rows by lia.
  rewrite nth_skipn_add.
  replace (T + (i * (2 * T - 1) + j)) with (i * (2 * T) + (T - i + j)).
  2:{ destruct T as [|T']; [lia|].
      replace (2 * S T' - 1) with (S (2 * T')) by lia.
      replace (S T' - i + j) with (S T' + j - i) by lia.
      assert (Hm : S T' + j - i + i = S T' + j) by lia.
      remember (S T' + j - i) as m. nia. }
  rewrite nth_concat_uniform with (n := 2 * T); cycle 1.
  1:{ apply Forall_map. eapply Forall_impl; [|exact HF]. intros r Hr; cbv beta in Hr; simpl; lia. }
  1: lia.
  rewrite (nth_indep _ [] (zero :: [])) by (rewrite length_map; lia).
  rewrite map_nth.
  replace (T - i + j) with (S (T - 1 + j - i)) by lia.
  reflexivity.
Qed.

Lemma rel_shift_reads_offset_witness :
  nth 2 (nth 1 (shifted_bd 0 3 5 3 [[1;2;3;4;5];[6;7;8;9;10];[11;12;13;14;15]]) []) 0
  = nth 3 (nth 1 [[1;2;3;4;5];[6;7;8;9;10];[11;12;13;14;15]] []) 0.
Proof.
  apply (rel_shift_reads_offset 0 3 [[1;2;3;4;5];[6;7;8;9;10];[11;12;13;14;15]]).
  - reflexivity.
  - repeat constructor.
  - lia.
  - lia.
Defined.

(** ** C3 *)
Section AttnProofs.
Import Attn.
Local Open Scope R_scope.

Lemma combine_map_snd {A B C} (f : A * B -> C) (l : list (A * B)) :
  combine (map f l) (map snd l) = map (fun p => (f p, snd p)) l.
Proof. induction l as [|[a b] l IH]; simpl; f_equal; auto. Qed.

Lemma map_snd_combine {A B} (l1 : list A) (l2 : list B) :
  length l1 = length l2 -> map snd (combine l1 l2) = l2.
Proof.
  revert l2; induction l1 as [|a l1 IH]; intros [|b l2] H; simpl in *; try lia; auto.
  f_equal. apply IH. lia.
Qed.

(** [attn_row] as one map over the (score, mask) pairs. *)
Lemma attn_row_pairs (scores : list R) (mask : list bool) :
  length scores = length mask ->
  attn_row scores mask =
  map (fun p : R * bool => if snd p then 0 else
         exp (fst p) / rsum (map (fun q : R * bool => exp (if snd q then -10000 else fst q))
                                 (combine scores mask)))
      (combine scores mask).
Proof.
  intros Hl. unfold attn_row, softmax, masked_fill.
  set (pairs := combine scores mask).
  assert (Hm : mask = map snd pairs) by (symmetry; apply map_snd_combine; exact Hl).
  rewrite Hm at 1. rewrite !map_map. rewrite combine_map_snd, map_map.
  apply map_ext. intros [a b]; simpl. destruct b; reflexivity.
Qed.

Lemma rsum_cons (x : R) (l : list R) : rsum (x :: l) = x + rsum l.
Proof. reflexivity. Qed.

Lemma normaliser_split (l : list (R * bool)) :
  rsum (map (fun q : R * bool => exp (if snd q then -10000 else fst q)) l)
  = rsum (map (fun p : R * bool => exp (fst p)) (filter (fun p : R * bool => negb (snd p)) l))
    + INR (length (filter (fun b => b) (map snd l))) * exp (-10000).
Proof.
  induction l as [|[a b] l IH]; [simpl; ring|].
  destruct b; cbn [map filter snd fst negb length]; rewrite ?rsum_cons, IH;
    [rewrite S_INR|]; ring.
Qed.

Lemma sum_unmasked_pairs (z : R) (l : list (R * bool)) :
  rsum (map fst (filter (fun q : R * bool => negb (snd q))
     (map (fun p : R * bool => (if snd p then 0 else exp (fst p) / z, snd p)) l)))
  = rsum (map (fun p : R * bool => exp (fst p)) (filter (fun p : R * bool => negb (snd p)) l)) / z.
Proof.
  induction l as [|[a b] l IH]; simpl; [unfold Rdiv; ring|].
  destruct b; simpl; rewrite IH; [reflexivity|unfold Rdiv; ring].
Qed.

Lemma rsum_exp_pos (l : list (R * bool)) :
  existsb (fun p : R * bool => negb (snd p)) l = true ->
  0 < rsum (map (fun p : R * bool => exp (fst p)) (filter (fun p : R * bool => negb (snd p)) l)).
Proof.
  assert (Hnn : forall l', 0 <= rsum (map (fun p : R * bool => exp (fst p)) l')).
  { induction l' as [|p l' IH]; simpl; [lra|]. pose proof (exp_pos (fst p)). lra. }
  induction l as [|[a b] l IH]; simpl; [discriminate|].
  destruct b; simpl; intros H; [auto|].
  pose proof (exp_pos a). specialize (Hnn (filter (fun p : R * bool => negb (snd p)) l)). lra.
Qed.

(** C3 (as the code does it): every masked weight of a row is exactly 0;
    the visible weights sum to [V / (V + k * exp(-10000))], where [V] is
    the sum of [exp] of the visible scores and [k] the number of masked
    positions: 1 when nothing is masked, 0 for a fully masked row. *)
Theorem attn_row_mass (scores : list R) (mask : list bool) :
  length scores = length mask ->
  (forall j, nth j mask false = true -> nth j (attn_row scores mask) 0 = 0) /\
  sum_unmasked (attn_row scores mask) mask
    = visible_mass scores mask
      / (visible_mass scores mask + INR (masked_count mask) * exp (-10000)) /\
  (masked_count mask = 0%nat -> (0 < length mask)%nat ->
   sum_unmasked (attn_row scores mask) mask = 1).
Proof.
  intros Hl.
  assert (Hm : mask = map snd (combine scores mask)) by (symmetry; apply map_snd_combine; exact Hl).
  assert (Hsum : sum_unmasked (attn_row scores mask) mask
    = visible_mass scores mask
      / (visible_mass scores mask + INR (masked_count mask) * exp (-10000))).
  { unfold sum_unmasked, visible_mass, masked_count. rewrite attn_row_pairs by exact Hl.
    set (pairs := combine scores mask) in *.
    rewrite Hm at 1. rewrite combine_map_snd. cbn beta.
    rewrite normaliser_split. rewrite <- Hm.
    rewrite sum_unmasked_pairs. reflexivity. }
  split; [|split].
  - intros j Hj. rewrite attn_row_pairs by exact Hl.
    destruct (Nat.lt_ge_cases j (length (combine scores mask))) as [Hlt|Hge].
    + rewrite (nth_map_lt _ _ _ _ (0, false) Hlt).
      rewrite combine_nth by exact Hl. simpl. rewrite Hj. reflexivity.
    + apply nth_overflow. rewrite length_map. exact Hge.
  - exact Hsum.
  - intros Hk Hpos. rewrite Hsum, Hk. simpl INR.
    assert (Hv : 0 < visible_mass scores mask).
    { unfold visible_mass. apply rsum_exp_pos.
      unfold masked_count in Hk.
      destruct scores as [|a sc], mask as [|b mk]; simpl in *; try lia.
      destruct b; simpl in *; [discriminate|reflexivity]. }
    field. lra.
Qed.

(** C3 fails as stated: in a fully masked row the visible weights (there
    are none) sum to 0, not 1; the row is all zeros. *)
Lemma attn_row_fully_masked_cex : sum_unmasked (attn_row [0] [true]) [true] <> 1.
Proof. unfold sum_unmasked, attn_row; simpl. lra. Qed.

Lemma attn_row_mass_witness :
  length [0; 1] = length [false; true] /\
  sum_unmasked (attn_row [0; 1] [false; true]) [false; true]
    = visible_mass [0; 1] [false; true]
      / (visible_mass [0; 1] [false; true] + INR (masked_count [false; true]) * exp (-10000)).
Proof.
  split; [reflexivity|].
  apply (attn_row_mass [0; 1] [false; true]). reflexivity.
Defined.
End AttnProofs.

(** ** C4 and C10 *)
Section CacheProofs.
Import Cache.
Context {F : Type}.

Lemma norm_neg n K : 1 <= K <= n -> Py.norm n (- Z.of_nat K) = n - K.
Proof.
  intros H. unfold Py.norm.
  replace (- Z.of_nat K <? 0)%Z with true by (symmetry; apply Z.ltb_lt; lia).
  lia.
Qed.

Lemma norm_pos n K : Py.norm n (Z.of_nat K) = Nat.min K n.
Proof.
  unfold Py.norm.
  replace (Z.of_nat K <? 0)%Z with false by (symmetry; apply Z.ltb_ge; lia).
  lia.
Qed.

Lemma getslice_from {A} (l : list A) K :
  K <= length l -> Py.getslice l (Some (Z.of_nat K)) None = skipn K l.
Proof.
  intros H. unfold Py.getslice, Py.lo, Py.hi. rewrite norm_pos.
  rewrite Nat.min_l by exact H. apply firstn_all2. rewrite length_skipn. lia.
Qed.

Lemma getslice_upto {A} (l : list A) K :
  K <= length l -> Py.getslice l None (Some (Z.of_nat K)) = firstn K l.
Proof.
  intros H. unfold Py.getslice, Py.lo, Py.hi. rewrite norm_pos.
  rewrite Nat.min_l by exact H. rewrite Nat.sub_0_r. reflexivity.
Qed.


Lemma setslice_suffix {A} (t src : list A) K :
  1 <= K <= length t -> length src = K ->
  Py.setslice t (Some (- Z.of_nat K)%Z) None src = Some (firstn (length t - K) t ++ src).
Proof.
  intros H Hs. unfold Py.setslice, Py.lo, Py.hi. rewrite norm_neg by exact H.
  replace (length t - (length t - K)) with K by lia.
  rewrite Hs, Nat.eqb_refl. rewrite skipn_all2 by lia. rewrite app_nil_r. reflexivity.
Qed.

(** C10: without a cache, [update_cache] returns key, value and query as
    given and leaves both buffers as they are; with a cache but no
    [cache_next], key and value become the cache slot followed by the
    incoming key and again no buffer changes. *)
Theorem update_cache_frame (m : MHA) (key value query : list F) (b : @Buffers F) :
  (cache b = None ->
   update_cache m key value query b = Some ((key, value, query), b)) /\
  (forall c id slot d,
     cache b = Some c -> cache_next b = None ->
     cache_id m = Some id -> nth_error c id = Some slot -> cache_drop_size m = Some d ->
     update_cache m key value query b = Some ((slot ++ key, slot ++ key, query), b)).
Proof.
  split.
  - intros Hc. unfold update_cache. rewrite Hc. reflexivity.
  - intros c id slot d Hc Hn Hid Hslot Hd.
    unfold update_cache. rewrite Hc, Hid. simpl. rewrite Hslot. simpl.
    rewrite Hd. simpl. rewrite Hn. reflexivity.
Qed.




End CacheProofs.

Section CacheWitnesses.
Import Cache.

Lemma update_cache_frame_witness :
  update_cache {| cache_drop_size := Some 1%Z; cache_id := Some 0 |} [9] [8] [1]
    {| cache := Some [[4; 5]]; cache_next := None |}
  = Some (([4; 5] ++ [9], [4; 5] ++ [9], [1]),
          {| cache := Some [[4; 5]]; cache_next := None |}).
Proof.
  apply (proj2 (update_cache_frame {| cache_drop_size := Some 1%Z; cache_id := Some 0 |}
                  [9] [8] [1] {| cache := Some [[4; 5]]; cache_next := None |})
           [[4; 5]] 0 [4; 5] 1%Z); reflexivity.
Defined.


End CacheWitnesses.

(** ** C7, C8, C9 *)
Section PEProofs.
Import PE.
Context {Row : Type} (enc : Z -> Row).

Lemma length_arange a b : length (arange a b) = Z.to_nat (b - a).
Proof. unfold arange. rewrite length_map, length_seq. reflexivity. Qed.

Lemma length_arange_desc a b : length (arange_desc a b) = Z.to_nat (a - b).
Proof. unfold arange_desc. rewrite length_map, length_seq. reflexivity. Qed.

Lemma rel_extend_Some L t :
  rel_extend_pe enc L (Some t)
  = if (2 * L - 1 <=? size1 t)%Z then Some t
    else Some (create_pe enc (arange_desc (L - 1) (- L))).
Proof. reflexivity. Qed.

Lemma rel_extend_None L :
  rel_extend_pe enc L None = Some (create_pe enc (arange_desc (L - 1) (- L))).
Proof. reflexivity. Qed.

Lemma abs_table_determined L1 L2 :
  (L1 <= L2)%Z -> (L2 <= size1 (create_pe enc (arange 0 L1)))%Z ->
  create_pe enc (arange 0 L1) = create_pe enc (arange 0 L2).
Proof.
  unfold size1, create_pe. rewrite length_map, length_arange. intros H1 H2.
  destruct (Z.eq_dec L1 L2) as [->|Hne]; [reflexivity|].
  unfold arange. replace (Z.to_nat (L1 - 0)) with 0 by lia.
  replace (Z.to_nat (L2 - 0)) with 0 by lia. reflexivity.
Qed.

Lemma rel_table_determined L1 L2 :
  (L1 <= L2)%Z -> (2 * L2 - 1 <= size1 (create_pe enc (arange_desc (L1 - 1) (- L1))))%Z ->
  create_pe enc (arange_desc (L1 - 1) (- L1)) = create_pe enc (arange_desc (L2 - 1) (- L2)).
Proof.
  unfold size1, create_pe. rewrite length_map, length_arange_desc. intros H1 H2.
  destruct (Z.eq_dec L1 L2) as [->|Hne]; [reflexivity|].
  unfold arange_desc. replace (Z.to_nat (L1 - 1 - - L1)) with 0 by lia.
  replace (Z.to_nat (L2 - 1 - - L2)) with 0 by lia. reflexivity.
Qed.

(** C7: for [L1 <= L2], extending the absolute or the global relative
    table to [L1] and then to [L2] gives the same buffer as extending to
    [L2] directly, from any starting buffer; and a request covered by the
    current buffer ([length <= size] for the absolute table,
    [2 * length - 1 <= size] for the relative one) leaves it unchanged. *)
Theorem extend_pe_prefix_idempotent :
  (forall (L1 L2 : Z) (pe : option (list Row)), (L1 <= L2)%Z ->
     abs_extend_pe enc L2 (abs_extend_pe enc L1 pe) = abs_extend_pe enc L2 pe /\
     rel_extend_pe enc L2 (rel_extend_pe enc L1 pe) = rel_extend_pe enc L2 pe) /\
  (forall (L : Z) (t : list Row), (L <= size1 t)%Z -> abs_extend_pe enc L (Some t) = Some t) /\
  (forall (L : Z) (t : list Row), (2 * L - 1 <= size1 t)%Z -> rel_extend_pe enc L (Some t) = Some t).
Proof.
  split; [|split].
  - intros L1 L2 pe HL. split.
    + destruct pe as [t|]; simpl.
      * destruct (L1 <=? size1 t)%Z eqn:E1; [reflexivity|].
        apply Z.leb_gt in E1. simpl.
        replace (L2 <=? size1 t)%Z with false by (symmetry; apply Z.leb_gt; lia).
        destruct (L2 <=? size1 (create_pe enc (arange 0 L1)))%Z eqn:E2; [|reflexivity].
        apply Z.leb_le in E2. f_equal. apply abs_table_determined; assumption.
      * destruct (L2 <=? size1 (create_pe enc (arange 0 L1)))%Z eqn:E2; [|reflexivity].
        apply Z.leb_le in E2. f_equal. apply abs_table_determined; assumption.
    + destruct pe as [t|]; rewrite ?rel_extend_Some, ?rel_extend_None.
      * destruct (2 * L1 - 1 <=? size1 t)%Z eqn:E1; [reflexivity|].
        apply Z.leb_gt in E1. rewrite !rel_extend_Some.
        replace (2 * L2 - 1 <=? size1 t)%Z with false by (symmetry; apply Z.leb_gt; lia).
        destruct (2 * L2 - 1 <=? size1 (create_pe enc (arange_desc (L1 - 1) (- L1))))%Z eqn:E2;
          [|reflexivity].
        apply Z.leb_le in E2. f_equal. apply rel_table_determined; assumption.
      * rewrite rel_extend_Some.
        destruct (2 * L2 - 1 <=? size1 (create_pe enc (arange_desc (L1 - 1) (- L1))))%Z eqn:E2;
          [|reflexivity].
        apply Z.leb_le in E2. f_equal. apply rel_table_determined; assumption.
  - intros L t H. simpl. apply Z.leb_le in H. rewrite H. reflexivity.
  - intros L t H. rewrite rel_extend_Some. apply Z.leb_le in H. rewrite H. reflexivity.
Qed.

Lemma map_seq_shift {A} (f : nat -> A) a len :
  map f (seq a len) = map (fun j => f (a + j)) (seq 0 len).
Proof.
  revert f a; induction len as [|len IH]; intros f a; simpl; [reflexivity|].
  rewrite Nat.add_0_r. f_equal.
  rewrite IH, (IH (fun j => f (a + j)) 1). apply map_ext. intros j. f_equal. lia.
Qed.

Lemma firstn_seq_min k a m : firstn k (seq a m) = seq a (Nat.min k m).
Proof.
  revert a m; induction k as [|k IH]; intros a [|m]; simpl; auto.
  f_equal. apply IH.
Qed.

Lemma getslice_range {A} (l : list A) a b :
  a <= b <= length l ->
  Py.getslice l (Some (Z.of_nat a)) (Some (Z.of_nat b)) = firstn (b - a) (skipn a l).
Proof.
  intros H. unfold Py.getslice, Py.lo, Py.hi. rewrite !norm_pos.
  rewrite !Nat.min_l by lia. reflexivity.
Qed.

(** C8 (amended): once the table was built by [extend_pe(M)] with
    [M >= T + c >= 1], [forward] with input length [T] and cache length
    [c] returns exactly the rows of the relative offsets
    [T + c - 1] down to [-(T + c - 1)] ([2 (T + c) - 1] rows, centred on
    offset 0): the table [extend_pe(T + c)] would build. *)
Theorem rel_forward_window (M : Z) (T c : nat) :
  (1 <= T + c)%nat -> (Z.of_nat (T + c) <= M)%Z ->
  rel_forward (rel_extend_pe enc M None) T c
  = Some (create_pe enc (arange_desc (Z.of_nat (T + c) - 1) (- Z.of_nat (T + c)))) /\
  length (create_pe enc (arange_desc (Z.of_nat (T + c) - 1) (- Z.of_nat (T + c))))
  = 2 * (T + c) - 1.
Proof.
  intros H1 H2. split.
  2:{ unfold create_pe. rewrite length_map, length_arange_desc. lia. }
  set (n := T + c) in *.
  set (m := Z.to_nat M).
  assert (HM : M = Z.of_nat m) by (unfold m; lia).
  rewrite rel_extend_None. unfold rel_forward, size1, create_pe.
  rewrite length_map, length_arange_desc. fold n.
  replace (Z.of_nat (Z.to_nat (M - 1 - - M)) / 2 + 1)%Z with M.
  2:{ replace (Z.of_nat (Z.to_nat (M - 1 - - M))) with (1 + (M - 1) * 2)%Z by lia.
      rewrite Z.div_add by lia. simpl. lia. }
  replace (M - Z.of_nat n)%Z with (Z.of_nat (m - n)) by lia.
  replace (M + Z.of_nat n - 1)%Z with (Z.of_nat (m + n - 1)) by lia.
  rewrite getslice_range by (rewrite length_map, length_arange_desc; lia).
  f_equal. rewrite skipn_map, firstn_map. f_equal.
  unfold arange_desc. rewrite skipn_map, firstn_map, skipn_seq, firstn_seq_min.
  rewrite map_seq_shift. symmetry. rewrite map_seq_shift.
  replace (Nat.min (m + n - 1 - (m - n)) (Z.to_nat (M - 1 - - M) - (m - n)))
    with (Z.to_nat (Z.of_nat n - 1 - - Z.of_nat n)) by lia.
  apply map_ext. intros j. lia.
Qed.

(** C9: the local table holds the rows of the offsets [left - i] for
    [i < left + right + 1] (from [+left] down to [-right]); the first
    [extend_pe] call builds it and every later call, whatever the
    requested length, leaves it as it is. *)
Theorem local_table_built_once (left right : Z) :
  (forall (L0 : Z) (Ls : list Z),
     fold_left (fun pe L => local_extend_pe enc left right L pe) Ls
               (local_extend_pe enc left right L0 None)
     = Some (create_pe enc (arange_desc left (- right - 1)))) /\
  (forall (L : Z) (t : list Row), local_extend_pe enc left right L (Some t) = Some t) /\
  arange_desc left (- right - 1)
    = map (fun i => (left - Z.of_nat i)%Z) (seq 0 (Z.to_nat (left + right + 1))) /\
  ((0 <= left + right)%Z ->
   hd_error (arange_desc left (- right - 1)) = Some left /\
   last (arange_desc left (- right - 1)) 0%Z = (- right)%Z).
Proof.
  split; [|split; [|split]].
  - intros L0 Ls. simpl. induction Ls as [|L Ls IH]; simpl; auto.
  - reflexivity.
  - unfold arange_desc. do 3 f_equal. lia.
  - intros H. unfold arange_desc.
    replace (Z.to_nat (left - (- right - 1))) with (S (Z.to_nat (left + right))) by lia.
    split; [simpl; f_equal; lia|].
    rewrite seq_S, map_app. cbn [map]. rewrite last_last. lia.
Qed.
End PEProofs.

Section PEWitnesses.
Import PE.

Lemma extend_pe_prefix_idempotent_witness :
  abs_extend_pe (fun p : Z => p) 3 (abs_extend_pe (fun p : Z => p) 2 None)
    = abs_extend_pe (fun p : Z => p) 3 None /\
  rel_extend_pe (fun p : Z => p) 3 (rel_extend_pe (fun p : Z => p) 2 None)
    = rel_extend_pe (fun p : Z => p) 3 None.
Proof.
  apply (proj1 (extend_pe_prefix_idempotent (fun p : Z => p)) 2%Z 3%Z None). lia.
Defined.

Lemma rel_forward_window_witness :
  rel_forward (rel_extend_pe (fun p : Z => p) 4 None) 2 1
  = Some (create_pe (fun p : Z => p) (arange_desc (Z.of_nat (2 + 1) - 1) (- Z.of_nat (2 + 1)))) /\
  length (create_pe (fun p : Z => p) (arange_desc (Z.of_nat (2 + 1) - 1) (- Z.of_nat (2 + 1))))
  = 2 * (2 + 1) - 1.
Proof. apply (rel_forward_window (fun p : Z => p) 4%Z 2 1); simpl; lia. Defined.

Lemma local_table_built_once_witness :
  hd_error (arange_desc 2 (- 1 - 1)) = Some 2%Z /\ last (arange_desc 2 (- 1 - 1)) 0%Z = (- 1)%Z.
Proof.
  apply (proj2 (proj2 (proj2 (local_table_built_once (fun p : Z => p) 2%Z 1%Z)))). lia.
Defined.

(** C8 fails as stated for a table shorter than the input: built for
    length 2 (offsets 1, 0, -1), a forward call with [T = 3], [c = 0]
    slices [pe[-1:4]], one row instead of [2 * 3 - 1 = 5]. *)
Lemma rel_forward_short_table_cex :
  option_map (@length Z) (rel_forward (rel_extend_pe (fun p : Z => p) 2 None) 3 0)
  = Some 1.
Proof. reflexivity. Qed.
End PEWitnesses.
Section BandedProofs.

Lemma combine_app_firstn_skipn {A B} n (x : list A) (y : list B) :
  combine (firstn n x) (firstn n y) ++ combine (skipn n x) (skipn n y) = combine x y.
Proof.
  revert x y; induction n as [|n IH]; intros [|a x] [|b y]; simpl; auto.
  - destruct (skipn n x); reflexivity.
  - now rewrite IH.
Qed.

Lemma getslice_last {A} (l : list A) n :
  1 <= n <= length l -> Py.getslice l (Some (- Z.of_nat n)%Z) None = skipn (length l - n) l.
Proof.
  intros H. unfold Py.getslice, Py.lo, Py.hi. rewrite norm_neg by exact H.
  apply firstn_all2. rewrite length_skipn. lia.
Qed.

Lemma setslice_first {A} (l s : list A) n :
  n <= length l -> length s = n -> Py.setslice l None (Some (Z.of_nat n)) s = Some (s ++ skipn n l).
Proof.
  intros H Hs. unfold Py.setslice, Py.lo, Py.hi. rewrite norm_pos, Nat.min_l by exact H.
  rewrite Nat.sub_0_r, Hs, Nat.eqb_refl. reflexivity.
Qed.

Lemma fill_empty_front {A} (l : list A) x : Py.fill l None (Some 0%Z) x = l.
Proof.
  unfold Py.fill, Py.lo, Py.hi. change 0%Z with (Z.of_nat 0). rewrite norm_pos.
  reflexivity.
Qed.

Lemma fill_empty_back {A} (l : list A) x : Py.fill l (Some (Z.of_nat (length l))) None x = l.
Proof.
  unfold Py.fill, Py.lo, Py.hi. rewrite norm_pos, Nat.min_id, Nat.sub_diag.
  simpl. rewrite Nat.add_0_r, skipn_all, app_nil_r. apply firstn_all.
Qed.

Lemma iadd_slice_same_length {K} (add : K -> K -> K) x start stop y :
  length y = length (Py.getslice x start stop) ->
  Banded.iadd_slice add x start stop y
  = Py.setslice x start stop (map (fun p : K * K => add (fst p) (snd p)) (combine (Py.getslice x start stop) y)).
Proof. intros H. unfold Banded.iadd_slice. rewrite H, Nat.eqb_refl. reflexivity. Qed.

(** With a symmetric window ([left = right = w]) the combination adds
    [bd[c]] to every column [c] and masks nothing: the two halves land on
    the columns of their offsets. *)
Lemma combine_row_symmetric {K} (add : K -> K -> K) (scale : K -> K) (fill : K)
    (w : nat) (ac bd : list K) :
  length ac = 2 * w + 1 -> length bd = 2 * w + 1 ->
  Banded.combine_row add scale fill w (Z.of_nat w) (Z.of_nat w) ac bd
  = Some (map (fun p : K * K => scale (add (fst p) (snd p))) (combine ac bd)).
Proof.
  intros Ha Hb.
  unfold Banded.combine_row.
  rewrite !getslice_upto by lia.
  rewrite iadd_slice_same_length by (rewrite getslice_upto, !length_firstn; lia).
  rewrite getslice_upto by lia.
  set (s1 := map _ (combine (firstn w ac) (firstn w bd))).
  assert (Hs1 : length s1 = w) by (unfold s1; rewrite length_map, length_combine, !length_firstn; lia).
  rewrite setslice_first by lia. cbn [Cache.obind].
  assert (Hl1 : length (s1 ++ skipn w ac) = 2 * w + 1) by (rewrite length_app, length_skipn; lia).
  replace (- (Z.of_nat w + 1))%Z with (- Z.of_nat (w + 1))%Z by lia.
  rewrite getslice_from by lia.
  rewrite iadd_slice_same_length by (rewrite getslice_last, !length_skipn; lia).
  rewrite getslice_last by lia.
  rewrite Hl1. replace (2 * w + 1 - (w + 1)) with w by lia.
  rewrite skipn_app, (skipn_all2 s1) by lia. rewrite Hs1, Nat.sub_diag. cbn [app skipn].
  set (s2 := map _ (combine (skipn w ac) (skipn w bd))).
  assert (Hs2 : length s2 = w + 1) by (unfold s2; rewrite length_map, length_combine, !length_skipn; lia).
  rewrite setslice_suffix by lia.
  rewrite Hl1. replace (2 * w + 1 - (w + 1)) with w by lia.
  rewrite firstn_app, Hs1, Nat.sub_diag, firstn_O, app_nil_r, firstn_all2 by lia.
  cbn [Cache.obind].
  replace (Z.of_nat w - Z.of_nat w)%Z with 0%Z by lia. rewrite fill_empty_front.
  replace (Z.of_nat w + Z.of_nat w + 1)%Z with (Z.of_nat (length (map scale (s1 ++ s2)))) by (rewrite length_map, length_app; lia).
  rewrite fill_empty_back. f_equal.
  unfold s1, s2. rewrite <- map_app, combine_app_firstn_skipn, map_map. reflexivity.
Qed.


(** Arithmetic normalisation of an evaluated real expression. *)
Ltac rsimp :=
  rewrite ?sqrt_1;
  repeat (rewrite ?Rmult_0_l, ?Rmult_0_r, ?Rmult_1_l, ?Rmult_1_r, ?Rplus_0_l, ?Rplus_0_r,
                  ?Rdiv_0_l, ?Rdiv_1_r).

Ltac eval_banded := cbv -[Rplus Rmult Rdiv Rinv Ropp exp sqrt IZR Rlt].

Lemma one_third_lt (a : R) : (2 < a)%R -> (2 / 3 < a / (1 + a))%R.
Proof.
  intros Ha.
  replace (a / (1 + a))%R with (1 - / (1 + a))%R by (field; lra).
  assert (/ (1 + a) < / 3)%R by (apply Rinv_lt_contravar; nra).
  lra.
Qed.

Lemma half_gt (a b : R) : (0 < a)%R -> (0 < b)%R -> (1 / (1 + (1 + (a + b))) < 1 / 2)%R.
Proof.
  intros Ha Hb. unfold Rdiv. rewrite !Rmult_1_l.
  apply Rinv_lt_contravar; nra.
Qed.

(** C1 (the banded engine against the dense one, left = 2, right = 1,
    T = 2): query 1 has content scores 0 and positional term 1 at offset 0
    only, and values 0 and 1 at keys 0 and 1.  The dense engine masked to
    the band (which masks nothing here) gives query 1 the output
    e / (1 + e) > 2/3; the banded forward, whatever [new_empty] left in
    memory, gives 1 / (2 + e^-9999 + e^-20000) < 1/2, because the
    offset-0 positional term never reaches the offset-0 band column. *)
Theorem longformer_offset0_bias_lost (junk : Banded.xr) :
  exists o,
    fst (Banded.forward (unit_params 2 1) fresh_mha junk [[0%R]; [1%R]] [[0%R]; [0%R]] [[0%R]; [1%R]]
           [false; false] (PE.create_pe offset0_enc (PE.arange_desc 2 (-2))) no_buffers) = inl o /\
    (nth 0 (nth 1 o []) 0 < 1 / 2)%R /\
    (2 / 3 < nth 0 (nth 1 (Banded.rel_mha_forward (unit_params 2 1) [[0%R]; [1%R]] [[0%R]; [0%R]] [[0%R]; [1%R]]
                             (Banded.band_mask 2 1 2) (PE.create_pe offset0_enc (PE.arange_desc 1 (-2)))) []) 0)%R.
Proof.
  eexists; split; [eval_banded; reflexivity|].
  eval_banded; rsimp. rewrite exp_0. split.
  - apply half_gt; apply exp_pos.
  - apply one_third_lt. pose proof (exp_ineq1 1 ltac:(lra)). lra.
Qed.

(** C6: for att_context_size = [2, 1] (w = 2, right < w) the combination
    adds [bd[0]] and [bd[1]] (offsets -2, -1) to columns 0 and 1 as
    intended, but nothing to column 2 = w (offset 0): the offset-0 term
    [bd[2]] lands on column 3 (offset +1), and the offset +1 term [bd[3]]
    on column 4, which is then overwritten by -10000.  For every entry
    type and every row. *)
Theorem combine_row_left_short {K} (add : K -> K -> K) (scale : K -> K) (fill : K)
    (a0 a1 a2 a3 a4 b0 b1 b2 b3 : K) :
  Banded.combine_row add scale fill 2 2 1 [a0; a1; a2; a3; a4] [b0; b1; b2; b3] =
  Some [scale (add a0 b0); scale (add a1 b1); scale a2; scale (add a3 b2); fill].
Proof. reflexivity. Qed.

(** C5 (amended): when w = max(left, right) <= 0 the banded forward raises
    [ValueError], but only after [update_cache] has run: the buffers
    afterwards are those [update_cache] left (its [cache_next] writes
    stay), and the q/k/v projections have been computed. *)
Theorem forward_window_check (P : Banded.Params) m junk query key value pad_mask pos_emb b kvq b' :
  (Z.max (fst (Banded.att_context_size P)) (snd (Banded.att_context_size P)) <= 0)%Z ->
  Cache.update_cache m key value query b = Some (kvq, b') ->
  Banded.forward P m junk query key value pad_mask pos_emb b = (inr Banded.ValueError, b').
Proof.
  intros Hw Hu. unfold Banded.forward. rewrite Hu.
  destruct kvq as [[k v] q]. cbn [Banded.forward_qkv].
  apply Z.leb_le in Hw. rewrite Hw. reflexivity.
Qed.

End BandedProofs.

Section BandedWitnesses.

Lemma forward_window_check_witness :
  Banded.forward (unit_params 0 0) fresh_mha Banded.NInf [[1%R]] [[1%R]] [[1%R]] [false] [] no_buffers
  = (inr Banded.ValueError, no_buffers).
Proof.
  apply (forward_window_check _ _ _ _ _ _ _ _ _ ([[1%R]], [[1%R]], [[1%R]])).
  - cbn. lia.
  - reflexivity.
Defined.

(** C5 fails as stated: with w = 0 the call raises [ValueError], yet the
    next-cache slot, [[0]] before the call, holds the query frame [[2]]
    afterwards. *)
Lemma forward_zero_window_writes_cache_cex :
  let r := Banded.forward (unit_params 0 0)
             {| Cache.cache_drop_size := Some 0%Z; Cache.cache_id := Some 0 |}
             Banded.NInf [[2%R]] [[2%R]] [[2%R]] [false] []
             {| Cache.cache := Some [[[1%R]]]; Cache.cache_next := Some [[[0%R]]] |} in
  fst r = inr Banded.ValueError /\ Cache.cache_next (snd r) = Some [[[2%R]]].
Proof. split; reflexivity. Qed.

End BandedWitnesses.

Section SinusoidProofs.
Import Sinusoid.

Lemma double_div2 i : (2 * i) / 2 = i.
Proof. rewrite Nat.mul_comm. apply Nat.div_mul. lia. Qed.

Lemma double_S_div2 i : (2 * i + 1) / 2 = i.
Proof.
  rewrite Nat.mul_comm, Nat.div_add_l by lia. simpl. lia.
Qed.

Lemma length_div_term d : length (div_term d) = (d + 1) / 2.
Proof. unfold div_term, step2_extent. rewrite length_map, length_seq. f_equal. lia. Qed.

Lemma length_set_step2 row off src : length (set_step2 row off src) = length row.
Proof. unfold set_step2. now rewrite length_map, length_seq. Qed.

Lemma nth_set_step2 row off src k :
  k < length row ->
  nth k (set_step2 row off src) 0%R
  = if (off <=? k) && Nat.even (k - off)
    then nth (Banded.bcast (length src) ((k - off) / 2)) src 0%R else nth k row 0%R.
Proof.
  intros Hk. unfold set_step2.
  rewrite nth_map_lt with (d' := 0) by (rewrite length_seq; exact Hk).
  rewrite seq_nth by exact Hk. reflexivity.
Qed.

Lemma length_pe_row d p : length (pe_row d p) = d.
Proof. unfold pe_row. now rewrite !length_set_step2, repeat_length. Qed.

Lemma nth_div_term d i :
  i < (d + 1) / 2 ->
  nth i (div_term d) 0%R = exp (INR (2 * i) * - (ln 10000 / INR d)).
Proof.
  intros Hi. unfold div_term, step2_extent. rewrite Nat.sub_0_r.
  rewrite nth_map_lt with (d' := 0) by (rewrite length_seq; lia).
  rewrite seq_nth by lia. reflexivity.
Qed.

Lemma create_pe_none_iff d ps :
  create_pe d ps = None <-> d = 0 \/ (Nat.odd d = true /\ 3 <= d).
Proof.
  unfold create_pe. rewrite length_div_term. unfold step2_extent, Banded.compat.
  rewrite Nat.sub_0_r.
  destruct (Nat.Even_or_Odd d) as [[m ->]|[m ->]].
  - replace (Nat.odd (2 * m)) with false
      by (rewrite <- Nat.negb_even, Nat.even_mul; reflexivity).
    replace ((2 * m + 1) / 2) with m by (symmetry; apply double_S_div2).
    destruct m as [|m]; [simpl; split; auto|].
    replace ((2 * S m - 1 + 1) / 2) with (S m)
      by (replace (2 * S m - 1 + 1) with (2 * S m) by lia; symmetry; apply double_div2).
    rewrite Nat.eqb_refl.
    replace (2 * S m =? 0) with false by (symmetry; apply Nat.eqb_neq; lia).
    simpl. split; [discriminate|]. intros [H|[H _]]; [lia|discriminate].
  - replace ((2 * m + 1 + 1) / 2) with (m + 1)
      by (replace (2 * m + 1 + 1) with (2 * (m + 1)) by lia; symmetry; apply double_div2).
    replace ((2 * m + 1 - 1 + 1) / 2) with m
      by (replace (2 * m + 1 - 1 + 1) with (2 * m + 1) by lia; symmetry; apply double_S_div2).
    rewrite Nat.eqb_refl.
    replace (2 * m + 1 =? 0) with false by (symmetry; apply Nat.eqb_neq; lia).
    replace (Nat.odd (2 * m + 1)) with true
      by (symmetry; apply Nat.odd_spec; exists m; reflexivity).
    destruct m as [|m]; simpl.
    + split; [discriminate|]. intros [H|[_ H]]; lia.
    + replace (m + 1 =? m) with false by (symmetry; apply Nat.eqb_neq; lia).
      replace (m + 1 =? 0) with false by (symmetry; apply Nat.eqb_neq; lia).
      split; [intros _; right; split; [reflexivity|lia]|reflexivity].
Qed.

(** [create_pe] raises exactly when [d_model = 0] (the division by
    [d_model] in [div_term]) or when [d_model] is odd and at least [3]:
    [pe[:, 1::2]] then has [(d_model - 1) / 2] columns while [div_term]
    has [(d_model + 1) / 2] entries. *)
Lemma create_pe_raises d ps :
  create_pe d ps = None <-> d = 0 \/ (Nat.odd d = true /\ 3 <= d).
Proof. apply create_pe_none_iff. Qed.

Lemma create_pe_builds d ps :
  d = 1 \/ (Nat.even d = true /\ 1 <= d) -> create_pe d ps = Some (map (pe_row d) ps).
Proof.
  intros Hd.
  assert (Hc : create_pe d ps = None \/ create_pe d ps = Some (map (pe_row d) ps)).
  { unfold create_pe. destruct (d =? 0); [left; reflexivity|].
    destruct (_ && _); [right|left]; reflexivity. }
  destruct Hc as [Hc|Hc]; [|exact Hc].
  apply create_pe_none_iff in Hc.
  destruct Hd as [->|[He Hd]]; destruct Hc as [Hc|[Ho Hc]]; try lia.
  rewrite <- Nat.negb_even, He in Ho. discriminate.
Qed.

Lemma bcast_lt m i : i < m -> Banded.bcast m i = i.
Proof. unfold Banded.bcast. destruct (Nat.eqb_spec m 1); lia. Qed.

Lemma half_lt d i : 2 * i < d -> i < (d + 1) / 2.
Proof.
  intros H. apply Nat.lt_le_trans with (i + 1); [lia|].
  apply Nat.div_le_lower_bound; lia.
Qed.

Lemma even_double i : Nat.even (2 * i) = true.
Proof. apply Nat.even_spec. exists i. reflexivity. Qed.

Lemma odd_double i : Nat.even (2 * i + 1) = false.
Proof. rewrite <- Nat.negb_odd. apply negb_false_iff. apply Nat.odd_spec. exists i. reflexivity. Qed.

(** column [2 i] of a row holds the sine, column [2 i + 1] the cosine,
    of [p * div_term[i]] *)
Lemma nth_pe_row d p i :
  (2 * i < d -> nth (2 * i) (pe_row d p) 0%R
                = (sin (IZR p * exp (INR (2 * i) * - (ln 10000 / INR d))))%R) /\
  (2 * i + 1 < d -> nth (2 * i + 1) (pe_row d p) 0%R
                = (cos (IZR p * exp (INR (2 * i) * - (ln 10000 / INR d))))%R).
Proof.
  unfold pe_row. split; intros Hi.
  - rewrite nth_set_step2 by (rewrite length_set_step2, repeat_length; lia).
    replace ((1 <=? 2 * i) && Nat.even (2 * i - 1)) with false.
    2:{ destruct i as [|i]; [reflexivity|].
        replace (2 * S i - 1) with (2 * i + 1) by lia. rewrite odd_double, andb_false_r. reflexivity. }
    rewrite nth_set_step2 by (rewrite repeat_length; lia).
    rewrite Nat.sub_0_r, even_double, double_div2. simpl andb.
    rewrite length_map, length_div_term, bcast_lt by (apply half_lt; lia).
    rewrite nth_map_lt with (d' := 0%R) by (rewrite length_div_term; apply half_lt; lia).
    rewrite nth_div_term by (apply half_lt; lia). reflexivity.
  - rewrite nth_set_step2 by (rewrite length_set_step2, repeat_length; lia).
    replace (2 * i + 1 - 1) with (2 * i) by lia.
    rewrite even_double, double_div2.
    replace (1 <=? 2 * i + 1) with true by (symmetry; apply Nat.leb_le; lia). simpl andb.
    rewrite length_map, length_div_term, bcast_lt by (apply half_lt; lia).
    rewrite nth_map_lt with (d' := 0%R) by (rewrite length_div_term; apply half_lt; lia).
    rewrite nth_div_term by (apply half_lt; lia). reflexivity.
Qed.

Lemma length_concat_pairs {A} (f g : nat -> A) l :
  length (concat (map (fun i => [f i; g i]) l)) = 2 * length l.
Proof. induction l as [|x l IH]; simpl; [reflexivity|]. rewrite IH. lia. Qed.

Lemma pe_row_pairs d p :
  Nat.even d = true ->
  pe_row d p
  = concat (map (fun i => let w := Rpower 10000 (- INR (2 * i) / INR d) in
                          [sin (IZR p * w); cos (IZR p * w)]%R) (seq 0 (d / 2))).
Proof.
  intros Hd. apply Nat.even_spec in Hd as [m ->]. rewrite double_div2.
  apply nth_ext with (d := 0%R) (d' := 0%R).
  - rewrite length_pe_row, length_concat_pairs, length_seq. reflexivity.
  - intros k Hk. rewrite length_pe_row in Hk.
    assert (Hw : forall i, i < m -> Rpower 10000 (- INR (2 * i) / INR (2 * m))
                              = exp (INR (2 * i) * - (ln 10000 / INR (2 * m)))%R).
    { intros i Hi. unfold Rpower. f_equal. field. apply not_0_INR. lia. }
    destruct (Nat.Even_or_Odd k) as [[i ->]|[i ->]].
    + destruct (nth_pe_row (2 * m) p i) as [E _]. rewrite E by lia.
      replace (2 * i) with (i * 2 + 0) at 2 by lia.
      rewrite nth_concat_uniform with (n := 2); [| |lia].
      * rewrite nth_map_lt with (d' := 0) by (rewrite length_seq; lia).
        rewrite seq_nth by lia. change (0 + i) with i. cbv beta zeta. rewrite Hw by lia. reflexivity.
      * apply Forall_forall. intros x Hx. apply in_map_iff in Hx as (j & <- & _). reflexivity.
    + destruct (nth_pe_row (2 * m) p i) as [_ E]. rewrite E by lia.
      replace (2 * i + 1) with (i * 2 + 1) by lia.
      rewrite nth_concat_uniform with (n := 2); [| |lia].
      * rewrite nth_map_lt with (d' := 0) by (rewrite length_seq; lia).
        rewrite seq_nth by lia. change (0 + i) with i. cbv beta zeta. rewrite Hw by lia. reflexivity.
      * apply Forall_forall. intros x Hx. apply in_map_iff in Hx as (j & <- & _). reflexivity.
Qed.

(** For an even [d_model], the row of position [p] interleaves
    [sin(p * w_i)] and [cos(p * w_i)], [w_i = 10000^(-2i/d_model)]. *)
Theorem pe_row_interleaved d p :
  Nat.even d = true ->
  pe_row d p
  = concat (map (fun i => let w := Rpower 10000 (- INR (2 * i) / INR d) in
                          [sin (IZR p * w); cos (IZR p * w)]%R) (seq 0 (d / 2))).
Proof. apply pe_row_pairs. Qed.

Lemma nth_map_or_default {A} (P : R -> Prop) (f : A -> R) (l : list A) j :
  (forall y, P (f y)) -> P 0%R -> P (nth j (map f l) 0%R).
Proof.
  intros Hf H0. destruct (nth_in_or_default j (map f l) 0%R) as [Hin| ->]; auto.
  apply in_map_iff in Hin as (y & <- & _). apply Hf.
Qed.

Lemma nth_pe_row_cases (P : R -> Prop) d p k :
  (forall a, P (sin a)) -> (forall a, P (cos a)) -> P 0%R ->
  P (nth k (pe_row d p) 0%R).
Proof.
  intros Hs Hc H0. unfold pe_row.
  destruct (Nat.lt_ge_cases k d) as [Hk|Hk].
  2:{ rewrite nth_overflow by (rewrite length_set_step2, length_set_step2, repeat_length; lia). exact H0. }
  rewrite nth_set_step2 by (rewrite length_set_step2, repeat_length; lia).
  destruct (_ && _).
  { apply nth_map_or_default; auto. }
  rewrite nth_set_step2 by (rewrite repeat_length; lia).
  destruct (_ && _).
  { apply nth_map_or_default; auto. }
  rewrite nth_repeat. exact H0.
Qed.

(** Every table [create_pe] builds has rows of [d_model] entries, all in
    [[-1, 1]]. *)
Theorem create_pe_rows_bounded d ps t :
  create_pe d ps = Some t ->
  Forall (fun row => length row = d /\ Forall (fun x => (-1 <= x <= 1)%R) row) t.
Proof.
  unfold create_pe. destruct (d =? 0); [discriminate|].
  destruct (_ && _); [|discriminate]. intros H; injection H as <-.
  apply Forall_forall. intros row Hrow. apply in_map_iff in Hrow as (p & <- & _).
  split; [apply length_pe_row|].
  apply Forall_forall. intros x Hx. apply In_nth with (d := 0%R) in Hx as (k & _ & <-).
  apply nth_pe_row_cases; [apply SIN_bound|apply COS_bound|lra].
Qed.

Lemma rsum_squares_pairs (a : nat -> R) l :
  Attn.rsum (map (fun x => x * x)%R (concat (map (fun i => [sin (a i); cos (a i)]) l)))
  = INR (length l).
Proof.
  induction l as [|i l IH]; [reflexivity|].
  cbn [map concat app length Attn.rsum fold_right] in *. unfold Attn.rsum in IH |- *.
  rewrite IH, S_INR. pose proof (sin2_cos2 (a i)). unfold Rsqr in H. lra.
Qed.

(** For an even [d_model], every row of the table has squared norm
    [d_model / 2]. *)
Theorem pe_row_norm d p :
  Nat.even d = true ->
  Attn.rsum (map (fun x => x * x)%R (pe_row d p)) = INR (d / 2).
Proof.
  intros Hd. rewrite (pe_row_pairs d p Hd).
  rewrite (rsum_squares_pairs (fun i => IZR p * Rpower 10000 (- INR (2 * i) / INR d))%R).
  now rewrite length_seq.
Qed.

(** The row of position [0] alternates [0, 1, 0, 1, ...]; the row of [-p]
    is the row of [p] with the sine (even) columns negated. *)
Theorem pe_row_parity d :
  pe_row d 0 = map (fun k => if Nat.even k then 0%R else 1%R) (seq 0 d) /\
  forall p k, nth k (pe_row d (- p)) 0%R
              = ((if Nat.even k then -1 else 1) * nth k (pe_row d p) 0%R)%R.
Proof.
  split.
  - apply nth_ext with (d := 0%R) (d' := 0%R).
    + now rewrite length_pe_row, length_map, length_seq.
    + intros k Hk. rewrite length_pe_row in Hk.
      rewrite nth_map_lt with (d' := 0) by (rewrite length_seq; lia).
      rewrite seq_nth by lia. change (0 + k) with k.
      destruct (Nat.Even_or_Odd k) as [[i ->]|[i ->]].
      * rewrite (proj1 (nth_pe_row d 0 i)) by lia. rewrite even_double, Rmult_0_l. apply sin_0.
      * rewrite (proj2 (nth_pe_row d 0 i)) by lia. rewrite odd_double, Rmult_0_l. apply cos_0.
  - intros p k. destruct (Nat.lt_ge_cases k d) as [Hk|Hk].
    + destruct (Nat.Even_or_Odd k) as [[i ->]|[i ->]].
      * rewrite (proj1 (nth_pe_row d (- p) i)), (proj1 (nth_pe_row d p i)) by lia.
        rewrite even_double, opp_IZR, Ropp_mult_distr_l_reverse, sin_neg. ring.
      * rewrite (proj2 (nth_pe_row d (- p) i)), (proj2 (nth_pe_row d p i)) by lia.
        rewrite odd_double, opp_IZR, Ropp_mult_distr_l_reverse, cos_neg. ring.
    + rewrite !nth_overflow by (rewrite length_pe_row; lia). ring.
Qed.

Lemma otraverse_some {A B} (f : A -> option B) (g : A -> B) l :
  (forall x, In x l -> f x = Some (g x)) -> Banded.otraverse f l = Some (map g l).
Proof.
  induction l as [|x l IH]; intros H; [reflexivity|]. simpl.
  rewrite (H x (or_introl eq_refl)). simpl.
  rewrite IH by (intros y Hy; apply H; right; exact Hy). reflexivity.
Qed.

Lemma in_combine_length {A B} (P : A -> Prop) (Q : B -> Prop) (l : list A) (l' : list B) a b :
  Forall P l -> Forall Q l' -> In (a, b) (combine l l') -> P a /\ Q b.
Proof.
  intros HP HQ Hin. split.
  - apply in_combine_l in Hin. rewrite Forall_forall in HP. auto.
  - apply in_combine_r in Hin. rewrite Forall_forall in HQ. auto.
Qed.

Lemma Forall_firstn_of {A} (P : A -> Prop) n l : Forall P l -> Forall P (firstn n l).
Proof. intros H. rewrite <- (firstn_skipn n l) in H. apply Forall_app in H. apply H. Qed.

Lemma add_row_same_length (r s : list R) :
  length r = length s ->
  bcast_zip (fun a b => Some (a + b)%R) r s = Some (Banded.vadd r s).
Proof.
  intros H. unfold bcast_zip. rewrite H, Nat.eqb_refl.
  apply otraverse_some. reflexivity.
Qed.

Lemma scale_input_shape xscale x n :
  Forall (fun r => length r = n) x ->
  length (scale_input xscale x) = length x /\ Forall (fun r => length r = n) (scale_input xscale x).
Proof.
  intros H. unfold scale_input. destruct xscale as [s|]; [destruct (Req_dec_T s 0)|]; auto.
  rewrite length_map. split; [reflexivity|].
  apply Forall_map. eapply Forall_impl; [|exact H]. intros r Hr. now rewrite length_map.
Qed.

Lemma getslice_upto_all {A} (l : list A) K :
  length l <= K -> Py.getslice l None (Some (Z.of_nat K)) = l.
Proof.
  intros H. unfold Py.getslice, Py.lo, Py.hi. rewrite norm_pos.
  rewrite Nat.min_r by exact H. simpl skipn. rewrite Nat.sub_0_r. apply firstn_all.
Qed.

Lemma abs_forward_first_rows xscale t x n :
  Forall (fun r => length r = n) t -> Forall (fun r => length r = n) x ->
  length x <= length t ->
  abs_forward xscale (Some t) x
  = Some (map (fun p => Banded.vadd (fst p) (snd p))
              (combine (scale_input xscale x) (firstn (length x) t)),
          firstn (length x) t).
Proof.
  intros Ht Hx Hle. destruct (scale_input_shape xscale x n Hx) as [Hl Hs].
  unfold abs_forward. rewrite Hl, getslice_upto by exact Hle.
  unfold add_rows, bcast_zip at 1.
  rewrite Hl, length_firstn, Nat.min_l, Nat.eqb_refl by exact Hle.
  rewrite (otraverse_some _ (fun p => Banded.vadd (fst p) (snd p))). { reflexivity. }
  intros [r s] Hin. apply (in_combine_length _ _ _ _ _ _ Hs (Forall_firstn_of _ (length x) t Ht)) in Hin.
  destruct Hin as [E1 E2]. apply add_row_same_length. simpl. lia.
Qed.

(** [PositionalEncoding.forward] with a table [pe] of at least [T] rows:
    [pos_emb] is the first [T] rows of [pe], and frame [t] of the output is
    the (scaled) input frame plus row [t]. *)
Theorem abs_forward_prefix xscale t x n :
  Forall (fun r => length r = n) t -> Forall (fun r => length r = n) x ->
  length x <= length t ->
  abs_forward xscale (Some t) x
  = Some (map (fun p => Banded.vadd (fst p) (snd p))
              (combine (scale_input xscale x) (firstn (length x) t)),
          firstn (length x) t).
Proof. apply abs_forward_first_rows. Qed.

Lemma firstn_seq_le s n m : n <= m -> firstn n (seq s m) = seq s n.
Proof.
  revert s m; induction n as [|n IH]; intros s [|m] H; simpl; try reflexivity; try lia.
  rewrite IH by lia. reflexivity.
Qed.

(** [extend_pe(L)] for an [L] of at least [T], then [forward], for a
    [d_model] for which [create_pe] builds a table ([1] or even): whether
    no table was built yet or the table was built by an earlier
    [extend_pe], [extend_pe] does not raise, [pos_emb] is the table of
    positions [0 .. T - 1] and frame [t] of the output is the scaled
    frame plus [pe_row t]. *)
Theorem abs_extend_then_forward d xscale (x : list (list R)) pe (L : Z) :
  d = 1 \/ (Nat.even d = true /\ 1 <= d) ->
  (pe = None \/ exists L0, pe = extend_pe d L0 None) ->
  (Z.of_nat (length x) <= L)%Z ->
  Forall (fun r => length r = d) x ->
  match extend_pe d L pe with
  | Some t => abs_forward xscale (Some t) x
  | None => None
  end
  = Some (map (fun p => Banded.vadd (fst p) (snd p))
              (combine (scale_input xscale x) (map (pe_row d) (PE.arange 0 (Z.of_nat (length x))))),
          map (pe_row d) (PE.arange 0 (Z.of_nat (length x)))).
Proof.
  intros Hd Hpe HL Hx.
  assert (Htab : exists L1, length x <= Z.to_nat (L1 - 0) /\
                 extend_pe d L pe = Some (map (pe_row d) (PE.arange 0 L1))).
  { destruct Hpe as [->|[L0 ->]].
    - exists L. split; [lia|]. simpl. apply create_pe_builds, Hd.
    - unfold extend_pe at 2. rewrite (create_pe_builds d _ Hd).
      unfold extend_pe, PE.size1.
      destruct (Z.leb_spec L (Z.of_nat (length (map (pe_row d) (PE.arange 0 L0))))) as [Hle|Hgt].
      + exists L0. split; [|reflexivity].
        unfold PE.arange in Hle. rewrite length_map, length_map, length_seq in Hle. lia.
      + exists L. split; [lia|]. apply create_pe_builds, Hd. }
  destruct Htab as (L1 & HL1 & ->).
  assert (Hfirst : firstn (length x) (map (pe_row d) (PE.arange 0 L1))
                   = map (pe_row d) (PE.arange 0 (Z.of_nat (length x)))).
  { unfold PE.arange. rewrite !firstn_map, firstn_seq_le by lia.
    rewrite Z.sub_0_r, Nat2Z.id. reflexivity. }
  rewrite <- Hfirst. apply abs_forward_first_rows with (n := d); [| exact Hx |].
  - apply Forall_forall. intros r Hr.
    apply in_map_iff in Hr as (p & <- & _). apply length_pe_row.
  - unfold PE.arange. rewrite length_map, length_map, length_seq. lia.
Qed.

(** A table shorter than the input: with one row, that row is added to
    every frame (broadcast); with any other number of rows, two frames or
    more make [forward] raise. *)
Theorem abs_forward_short_table xscale t x n :
  length t < length x ->
  (t = [] \/ 2 <= length t -> 2 <= length x -> abs_forward xscale (Some t) x = None) /\
  (forall r, t = [r] -> length r = n -> Forall (fun row => length row = n) x ->
   abs_forward xscale (Some t) x
   = Some (map (fun row => Banded.vadd row r) (scale_input xscale x), t)).
Proof.
  intros Hlt. split.
  - intros Ht H2.
    unfold abs_forward.
    assert (Hl : length (scale_input xscale x) = length x)
      by (unfold scale_input; destruct xscale as [s|]; [destruct (Req_dec_T s 0)|]; rewrite ?length_map; auto).
    rewrite Hl, getslice_upto_all by lia. unfold add_rows, bcast_zip at 1.
    replace (length (scale_input xscale x) =? length t) with false by (symmetry; apply Nat.eqb_neq; lia).
    destruct t as [|r [|r' t']]; simpl in Ht.
    + destruct (scale_input xscale x) as [|a [|b l]]; simpl in Hl; try lia. reflexivity.
    + destruct Ht as [H|H]; [discriminate|simpl in H; lia].
    + destruct (scale_input xscale x) as [|a [|b l]]; simpl in Hl; try lia. reflexivity.
  - intros r -> Hr Hx. destruct (scale_input_shape xscale x n Hx) as [Hl Hs].
    unfold abs_forward. rewrite Hl, getslice_upto_all by (simpl in Hlt |- *; lia).
    unfold add_rows, bcast_zip at 1.
    replace (length (scale_input xscale x) =? length [r]) with false
      by (symmetry; apply Nat.eqb_neq; rewrite Hl; simpl in Hlt |- *; lia).
    rewrite (otraverse_some _ (fun row => Banded.vadd row r)). { reflexivity. }
    intros row Hin. rewrite Forall_forall in Hs. apply add_row_same_length. rewrite Hs by exact Hin. auto.
Qed.

End SinusoidProofs.

Section DenseProofs.
Import Banded Dense.

Lemma nth_combine_lt {A B} (l : list A) (l' : list B) t d :
  t < length l -> t < length l' ->
  nth t (combine l l') d = (nth t l (fst d), nth t l' (snd d)).
Proof.
  revert l l'; induction t as [|t IH]; intros [|a l] [|b l'] H1 H2; simpl in *; try lia; auto.
  apply IH; lia.
Qed.

Lemma dot_zero_l x y : Forall (fun a => a = 0%R) x -> dot x y = 0%R.
Proof.
  intros H; revert y; induction H as [|a x Ha H IH]; intros [|b y]; try reflexivity.
  unfold dot in *; simpl. rewrite IH, Ha. ring.
Qed.

Lemma masked_fill_all_true x m v :
  Forall (fun b => b = true) m -> Forall (fun a => a = v) (Attn.masked_fill x m v).
Proof.
  intros H. unfold Attn.masked_fill. apply Forall_forall. intros a Ha.
  apply in_map_iff in Ha as ([c b] & <- & Hin). apply in_combine_r in Hin.
  rewrite Forall_forall in H. rewrite (H b Hin). reflexivity.
Qed.

Lemma masked_fill_all_false x n v :
  length x = n -> Attn.masked_fill x (repeat false n) v = x.
Proof.
  intros <-. unfold Attn.masked_fill. induction x as [|a x IH]; simpl; [reflexivity|].
  f_equal. exact IH.
Qed.

Lemma length_softmax x : length (Attn.softmax x) = length x.
Proof. unfold Attn.softmax. apply length_map. Qed.

Lemma dot_zero_r x y : Forall (fun a => a = 0%R) y -> dot x y = 0%R.
Proof.
  intros H; revert x; induction H as [|a y Ha H IH]; intros [|b x]; try reflexivity.
  unfold dot in *; simpl. rewrite IH, Ha. ring.
Qed.

Lemma linear_zero (l : Linear) x :
  length (weight l) = length (bias l) -> Forall (fun a => a = 0%R) x -> linear l x = bias l.
Proof.
  intros Hl Hx. unfold linear. revert Hl; generalize (bias l).
  induction (weight l) as [|w W IH]; intros [|b B] Hl; simpl in *; try lia; [reflexivity|].
  rewrite dot_zero_r by exact Hx. f_equal; [ring|]. apply IH. lia.
Qed.

Lemma nth_map_cases {A B} (Q : B -> Prop) (f : A -> B) l n db da :
  (n < length l -> Q (f (nth n l da))) -> Q db -> Q (nth n (map f l) db).
Proof.
  intros H1 H2. destruct (Nat.lt_ge_cases n (length l)) as [Hn|Hn].
  - rewrite nth_map_lt with (d' := da) by exact Hn. auto.
  - rewrite nth_overflow by (rewrite length_map; exact Hn). exact H2.
Qed.

Lemma nth_merge_heads T x t :
  t < T -> nth t (merge_heads T x) [] = concat (map (fun c => nth t c []) x).
Proof.
  intros Ht. unfold merge_heads.
  rewrite nth_map_lt with (d' := 0) by (rewrite length_seq; exact Ht).
  rewrite seq_nth by exact Ht. reflexivity.
Qed.

Lemma length_merge_heads T x : length (merge_heads T x) = T.
Proof. unfold merge_heads. now rewrite length_map, length_seq. Qed.

Lemma matmul_zero_row a v n t :
  Forall (fun a => a = 0%R) (nth t a []) -> Forall (fun a => a = 0%R) (nth t (matmul a v n) []).
Proof.
  intros H. unfold matmul. apply nth_map_cases with (da := []); [|constructor].
  intros _. apply Forall_forall. intros y Hy. apply in_map_iff in Hy as (e & <- & _).
  apply dot_zero_l. exact H.
Qed.

(** A query row that the mask hides completely ([mask[t1] = True]
    everywhere) gets weight [0] on every key in every head, so its output
    row is [linear_out]'s bias, whatever the scores and values. *)
Theorem forward_attention_masked_row P value scores m t1 :
  length (weight (linear_out P)) = length (bias (linear_out P)) ->
  t1 < length (hd [] scores) ->
  Forall (fun b => b = true) (nth t1 m []) ->
  nth t1 (forward_attention P value scores (Some m)) [] = bias (linear_out P).
Proof.
  intros Hl Ht Hm. unfold forward_attention.
  rewrite nth_map_lt with (d' := []) by (rewrite length_merge_heads; exact Ht).
  rewrite nth_merge_heads by exact Ht.
  apply linear_zero; [exact Hl|].
  apply Forall_forall. intros y Hy. apply in_concat in Hy as (r & Hr & Hy).
  apply in_map_iff in Hr as (c & <- & Hc). revert y Hy. apply Forall_forall.
  apply in_map_iff in Hc as ([a v] & <- & Hin). simpl.
  apply matmul_zero_row.
  apply in_combine_l, in_map_iff in Hin as (s & <- & _).
  unfold Attn.attn. apply nth_map_cases with (da := ([], [])); [|constructor].
  intros Hlt. rewrite length_combine in Hlt.
  rewrite nth_combine_lt by lia. simpl.
  unfold Attn.attn_row. apply masked_fill_all_true. exact Hm.
Qed.

(** An all-[False] mask of the scores' shape gives the output of no mask. *)
Theorem forward_attention_all_false_mask P value scores n1 n2 :
  Forall (fun s => length s = n1 /\ Forall (fun r => length r = n2) s) scores ->
  forward_attention P value scores (Some (repeat (repeat false n2) n1))
  = forward_attention P value scores None.
Proof.
  intros HF. unfold forward_attention. do 4 f_equal.
  apply map_ext_in. intros s Hs. rewrite Forall_forall in HF.
  destruct (HF s Hs) as [Hn1 Hrows]. subst n1.
  unfold Attn.attn. clear HF Hs. induction Hrows as [|r s Hr Hrows IH]; [reflexivity|].
  simpl. rewrite IH. f_equal. unfold Attn.attn_row.
  rewrite (masked_fill_all_false r n2 (-10000)%R) by exact Hr.
  apply masked_fill_all_false. rewrite length_softmax. exact Hr.
Qed.

Lemma combine_map_same {A B C} (f : A -> B) (g : A -> C) l :
  combine (map f l) (map g l) = map (fun x => (f x, g x)) l.
Proof. induction l as [|x l IH]; simpl; [reflexivity|]. now rewrite IH. Qed.

Lemma map_nth_seq_all (v : list R) :
  map (fun e => nth e v 0%R) (seq 0 (length v)) = v.
Proof.
  apply nth_ext with (d := 0%R) (d' := 0%R); rewrite ?length_map, ?length_seq; [reflexivity|].
  intros n Hn. rewrite nth_map_lt with (d' := 0) by (rewrite length_seq; exact Hn).
  rewrite seq_nth by exact Hn. reflexivity.
Qed.

(** [merge_heads] undoes [split_heads] on a row of width [h * d_k] *)
Lemma concat_split_row {A} (V : list A) hh dk :
  length V = hh * dk -> concat (map (fun i => firstn dk (skipn (i * dk) V)) (seq 0 hh)) = V.
Proof.
  revert V; induction hh as [|hh IH]; intros V HV.
  - simpl in *. destruct V; [reflexivity|discriminate].
  - simpl seq. rewrite <- seq_shift. cbn [map concat]. rewrite map_map.
    rewrite (map_ext (fun x => firstn dk (skipn (S x * dk) V))
                     (fun x => firstn dk (skipn (x * dk) (skipn dk V)))).
    2:{ intros x. rewrite skipn_skipn. replace (x * dk + dk) with (S x * dk) by lia. reflexivity. }
    rewrite IH by (rewrite length_skipn; lia). simpl skipn. apply firstn_skipn.
Qed.

Lemma softmax_single a : Attn.softmax [a] = [1%R].
Proof.
  unfold Attn.softmax, Attn.rsum. simpl. f_equal. rewrite Rplus_0_r.
  field. apply Rgt_not_eq, exp_pos.
Qed.

Lemma ctx_single_key (qi : list (list R)) kr vr dk s :
  length vr = dk ->
  matmul (map Attn.softmax (map (map (fun a => (a / s)%R)) (matmul_nt qi [kr]))) [vr] dk
  = map (fun _ => vr) qi.
Proof.
  intros Hv. unfold matmul, matmul_nt. rewrite !map_map. apply map_ext. intros r.
  simpl map at 2. rewrite softmax_single. subst dk.
  rewrite <- (map_nth_seq_all vr) at 2. apply map_ext. intros e.
  unfold dot. simpl. ring.
Qed.

Lemma forward_attention_single_key P (qf : nat -> list (list R)) kf vf T s :
  1 <= h P -> (forall i, length (qf i) = T) -> (forall i, i < h P -> length (vf i) = d_k P) ->
  forward_attention P (map (fun i => [vf i]) (seq 0 (h P)))
    (map (fun i => map (map (fun a => (a / s)%R)) (matmul_nt (qf i) [kf i])) (seq 0 (h P))) None
  = repeat (linear (linear_out P) (concat (map vf (seq 0 (h P))))) T.
Proof.
  intros Hh Hq Hv. unfold forward_attention.
  match goal with |- context [merge_heads ?T' ?c] =>
    replace c with (map (fun i => map (fun _ => vf i) (qf i)) (seq 0 (h P)));
    [replace T' with T|] end.
  - symmetry. rewrite <- (length_seq T 0) at 1. rewrite <- map_const. symmetry.
    unfold merge_heads. rewrite map_map.
    apply map_ext_in. intros t Ht. apply in_seq in Ht. f_equal.
    rewrite map_map. f_equal. apply map_ext_in. intros i _.
    rewrite nth_map_lt with (d' := []) by (rewrite Hq; lia). reflexivity.
  - destruct (h P) as [|hh]; [lia|]. simpl. unfold matmul_nt. rewrite !length_map. symmetry. apply Hq.
  - rewrite map_map, combine_map_same, map_map. apply map_ext_in. intros i Hi.
    apply in_seq in Hi. simpl. symmetry. apply ctx_single_key. apply Hv. lia.
Qed.

(** With one key frame (and no mask), every query attends to it with
    weight [1]: each output row is [linear_out(linear_v(value))], whatever
    the query and the key. *)
Theorem forward_single_key P query k0 v0 :
  1 <= h P ->
  length (weight (linear_v P)) = h P * d_k P -> length (bias (linear_v P)) = h P * d_k P ->
  Dense.forward P query [k0] [v0] None
  = repeat (linear (linear_out P) (linear (linear_v P) v0)) (length query).
Proof.
  intros Hh Hw Hb.
  assert (HV : length (linear (linear_v P) v0) = h P * d_k P).
  { unfold linear. rewrite length_map, length_combine. lia. }
  set (V := linear (linear_v P) v0) in *.
  set (Q := map (linear (linear_q P)) query).
  set (Kr := linear (linear_k P) k0).
  transitivity (repeat (linear (linear_out P)
                  (concat (map (fun i => firstn (d_k P) (skipn (i * d_k P) V)) (seq 0 (h P)))))
                  (length Q)).
  - unfold Dense.forward, forward_qkv. cbv beta iota zeta. unfold split_heads.
    rewrite combine_map_same, map_map.
    apply (forward_attention_single_key P
             (fun i => map (fun row => firstn (d_k P) (skipn (i * d_k P) row)) Q)
             (fun i => firstn (d_k P) (skipn (i * d_k P) Kr))
             (fun i => firstn (d_k P) (skipn (i * d_k P) V))); [exact Hh| |].
    + intros i. apply length_map.
    + intros i Hi. rewrite length_firstn, length_skipn. nia.
  - rewrite concat_split_row by exact HV. unfold Q. now rewrite length_map.
Qed.

End DenseProofs.

Section CacheInvariants.
Import Cache.
Context {F : Type}.

Lemma length_set_nth {A} i (x : A) l : length (set_nth i x l) = length l.
Proof. revert i; induction l as [|y l IH]; intros [|i]; simpl; auto. Qed.

Lemma nth_error_set_nth_other {A} i j (x : A) l :
  i <> j -> nth_error (set_nth i x l) j = nth_error l j.
Proof.
  revert i j; induction l as [|y l IH]; intros [|i] [|j] H; simpl; auto; try lia.
Qed.

Lemma norm_zero n : Py.norm n 0 = 0.
Proof. unfold Py.norm. simpl. lia. Qed.

(** Whenever [update_cache] returns, the query comes back unchanged, the
    [cache] buffer is not touched, and in [cache_next] only the slot
    [_cache_id] may change (the buffer keeps its number of slots). *)
Theorem update_cache_touches_one_slot (m : MHA) (key value query : list F) (b : @Buffers F)
    k' v' q' b' :
  update_cache m key value query b = Some ((k', v', q'), b') ->
  q' = query /\ cache b' = cache b /\
  match cache_next b, cache_next b' with
  | Some cn, Some cn' =>
      length cn' = length cn /\ forall j, cache_id m <> Some j -> nth_error cn' j = nth_error cn j
  | None, None => True
  | _, _ => False
  end.
Proof.
  unfold update_cache. destruct b as [[c|] [cn|]]; simpl.
  - destruct (cache_id m) as [id|]; simpl; [|discriminate].
    destruct (nth_error c id) as [slot|]; simpl; [|discriminate].
    destruct (cache_drop_size m) as [d|]; simpl; [|discriminate].
    destruct (nth_error cn id) as [nslot|]; simpl; [|discriminate].
    destruct (Py.setslice nslot _ _ _) as [n1|]; simpl; [|discriminate].
    destruct (Py.setslice n1 _ _ _) as [n2|]; simpl; [|discriminate].
    intros H; injection H as _ _ <- <-. simpl. repeat split; auto.
    + apply length_set_nth.
    + intros j Hj. apply nth_error_set_nth_other. congruence.
  - destruct (cache_id m) as [id|]; simpl; [|discriminate].
    destruct (nth_error c id) as [slot|]; simpl; [|discriminate].
    destruct (cache_drop_size m) as [d|]; simpl; [|discriminate].
    intros H; injection H as _ _ <- <-. simpl. auto.
  - intros H; injection H as _ _ <- <-. simpl. repeat split; auto.
  - intros H; injection H as _ _ <- <-. simpl. auto.
Qed.

(** A keep size of [0] ([cache_drop_size] equal to the query length)
    makes [update_cache] raise whenever the next-cache slot holds a frame:
    [cache_next[id, :, -0:, :]] is the whole slot and [query[:, :0, :]]
    has no frame. *)
Theorem update_cache_zero_keep_raises (m : MHA) (key value query : list F)
    (c cn : list (list F)) (id : nat) (slot nslot : list F) :
  cache_id m = Some id -> cache_drop_size m = Some (Z.of_nat (length query)) ->
  nth_error c id = Some slot -> nth_error cn id = Some nslot -> nslot <> [] ->
  update_cache m key value query {| cache := Some c; cache_next := Some cn |} = None.
Proof.
  intros Hid Hd Hslot Hnslot Hne.
  unfold update_cache; simpl. rewrite Hid; simpl. rewrite Hslot; simpl.
  rewrite Hd; simpl. rewrite Hnslot; simpl. rewrite Z.sub_diag. simpl Z.opp.
  assert (H1 : Py.getslice query None (Some 0%Z) = [])
    by (unfold Py.getslice, Py.lo, Py.hi; rewrite norm_zero; reflexivity).
  rewrite H1.
  destruct (Py.setslice nslot None (Some 0%Z) (Py.getslice slot (Some 0%Z) None)) as [n1|] eqn:E; simpl; [|reflexivity].
  assert (Hn1 : n1 = nslot).
  { revert E. unfold Py.setslice, Py.lo, Py.hi. rewrite norm_zero. simpl.
    destruct (length _ =? 0) eqn:El.
    - intros H; injection H as <-. apply Nat.eqb_eq in El. apply length_zero_iff_nil in El as ->. reflexivity.
    - destruct (Py.getslice slot (Some 0%Z) None) as [|x [|y l]]; try discriminate.
      intros H; injection H as <-. reflexivity. }
  subst n1. unfold Py.setslice, Py.lo, Py.hi. rewrite norm_zero.
  destruct nslot as [|a l]; [contradiction|]. reflexivity.
Qed.
End CacheInvariants.

Section BandProofs.
Import Banded.

Ltac norm_lia :=
  unfold extent, Py.lo, Py.hi, Py.norm; cbn [fst snd];
  repeat match goal with |- context [(?z <? 0)%Z] => destruct (Z.ltb_spec z 0) end; lia.

Lemma nth_getslice {A} (l : list A) s e i d :
  i < Py.hi (length l) e - Py.lo (length l) s ->
  nth i (Py.getslice l s e) d = nth (Py.lo (length l) s + i) l d.
Proof.
  intros Hi. unfold Py.getslice. rewrite nth_firstn_lt by exact Hi. apply nth_skipn_add.
Qed.

Lemma length_getslice {A} (l : list A) s e :
  Py.hi (length l) e <= length l ->
  length (Py.getslice l s e) = Py.hi (length l) e - Py.lo (length l) s.
Proof.
  intros H. unfold Py.getslice. rewrite length_firstn, length_skipn. lia.
Qed.

Lemma hi_le n e : Py.hi n e <= n.
Proof. destruct e as [e|]; simpl; [|lia]. unfold Py.norm. destruct (Z.ltb_spec e 0); lia. Qed.

Lemma lo_le n s : Py.lo n s <= n.
Proof. destruct s as [s|]; simpl; [|lia]. unfold Py.norm. destruct (Z.ltb_spec s 0); lia. Qed.

Lemma nth3_map_seq {A} (f : nat -> nat -> nat -> A) n0 n1 n2 i0 i1 i2 d :
  i0 < n0 -> i1 < n1 -> i2 < n2 ->
  nth i2 (nth i1 (nth i0 (map (fun i0 => map (fun i1 => map (fun i2 => f i0 i1 i2)
      (seq 0 n2)) (seq 0 n1)) (seq 0 n0)) []) []) d = f i0 i1 i2.
Proof.
  intros H0 H1 H2.
  rewrite nth_map_lt with (d' := 0) by (rewrite length_seq; exact H0). rewrite seq_nth by exact H0.
  rewrite nth_map_lt with (d' := 0) by (rewrite length_seq; exact H1). rewrite seq_nth by exact H1.
  rewrite nth_map_lt with (d' := 0) by (rewrite length_seq; exact H2). rewrite seq_nth by exact H2.
  reflexivity.
Qed.

Lemma shape3_map_seq {A} (f : nat -> nat -> nat -> A) n0 n1 n2 :
  let t := map (fun i0 => map (fun i1 => map (fun i2 => f i0 i1 i2)
      (seq 0 n2)) (seq 0 n1)) (seq 0 n0) in
  length t = n0 /\ Forall (fun m => length m = n1 /\ Forall (fun r => length r = n2) m) t.
Proof.
  simpl. rewrite length_map, length_seq. split; [reflexivity|].
  apply Forall_forall. intros m Hm. apply in_map_iff in Hm as (i0 & <- & _).
  rewrite length_map, length_seq. split; [reflexivity|].
  apply Forall_forall. intros r Hr. apply in_map_iff in Hr as (i1 & <- & _).
  now rewrite length_map, length_seq.
Qed.

Lemma set3_some {A} (d : A) t n0 n1 n2 s0 s1 s2 src m0 m1 m2 :
  compat (extent n0 s0) m0 = true -> compat (extent n1 s1) m1 = true ->
  compat (extent n2 s2) m2 = true ->
  exists t', set3 d t n0 n1 n2 s0 s1 s2 src m0 m1 m2 = Some t' /\
  length t' = n0 /\ Forall (fun m => length m = n1 /\ Forall (fun r => length r = n2) m) t' /\
  forall i0 i1 i2, i0 < n0 -> i1 < n1 -> i2 < n2 ->
  nth i2 (nth i1 (nth i0 t' []) []) d
  = if in_range (Py.lo n0 (fst s0)) (extent n0 s0) i0 && in_range (Py.lo n1 (fst s1)) (extent n1 s1) i1
       && in_range (Py.lo n2 (fst s2)) (extent n2 s2) i2
    then nth (bcast m2 (i2 - Py.lo n2 (fst s2)))
           (nth (bcast m1 (i1 - Py.lo n1 (fst s1))) (nth (bcast m0 (i0 - Py.lo n0 (fst s0))) src []) []) d
    else nth i2 (nth i1 (nth i0 t []) []) d.
Proof.
  intros C0 C1 C2. unfold set3. rewrite C0, C1, C2. simpl.
  eexists. split; [reflexivity|].
  destruct (shape3_map_seq (fun i0 i1 i2 =>
      if in_range (Py.lo n0 (fst s0)) (extent n0 s0) i0 && in_range (Py.lo n1 (fst s1)) (extent n1 s1) i1
         && in_range (Py.lo n2 (fst s2)) (extent n2 s2) i2
      then nth (bcast m2 (i2 - Py.lo n2 (fst s2)))
             (nth (bcast m1 (i1 - Py.lo n1 (fst s1))) (nth (bcast m0 (i0 - Py.lo n0 (fst s0))) src []) []) d
      else nth i2 (nth i1 (nth i0 t []) []) d) n0 n1 n2) as [L F].
  split; [exact L|]. split; [exact F|].
  intros i0 i1 i2 H0 H1 H2. apply nth3_map_seq; assumption.
Qed.

Lemma get3_entry {A} (t : list (list (list A))) N0 N1 N2 s0 s1 s2 i0 i1 i2 d :
  length t = N0 -> Forall (fun m => length m = N1 /\ Forall (fun r => length r = N2) m) t ->
  i0 < extent N0 s0 -> i1 < extent N1 s1 -> i2 < extent N2 s2 ->
  nth i2 (nth i1 (nth i0 (get3 t s0 s1 s2) []) []) d
  = nth (Py.lo N2 (fst s2) + i2) (nth (Py.lo N1 (fst s1) + i1) (nth (Py.lo N0 (fst s0) + i0) t []) []) d.
Proof.
  intros L F H0 H1 H2. unfold get3, extent in *. subst N0.
  rewrite nth_map_lt with (d' := []) by (rewrite length_getslice by apply hi_le; exact H0).
  rewrite nth_getslice by exact H0. cbv beta.
  assert (Hin : In (nth (Py.lo (length t) (fst s0) + i0) t []) t) by (apply nth_In; pose proof (hi_le (length t) (snd s0)); lia).
  rewrite Forall_forall in F. destruct (F _ Hin) as [Lm Fm].
  set (m := nth (Py.lo (length t) (fst s0) + i0) t []) in *.
  rewrite <- Lm in H1.
  rewrite nth_map_lt with (d' := []) by (rewrite length_getslice by apply hi_le; exact H1).
  rewrite (nth_getslice m (fst s1) (snd s1) i1) by exact H1. cbv beta.
  assert (Hin2 : In (nth (Py.lo (length m) (fst s1) + i1) m []) m) by (apply nth_In; pose proof (hi_le (length m) (snd s1)); lia).
  rewrite Forall_forall in Fm. specialize (Fm _ Hin2).
  rewrite <- Fm in H2. rewrite nth_getslice by exact H2. rewrite Fm, Lm. reflexivity.
Qed.

Lemma div_S S w n : 1 <= w -> S = w * 2 * n -> S / (w * 2) = n.
Proof. intros Hw ->. rewrite (Nat.mul_comm (w * 2) n). apply Nat.div_mul. lia. Qed.

Lemma chunk_overlap_shape S hd w x n :
  1 <= w -> S = w * 2 * n ->
  length (chunk_overlap S hd w x) = n * 2 - 1 /\
  Forall (fun m => length m = w * 2 /\ Forall (fun r => length r = hd) m) (chunk_overlap S hd w x).
Proof.
  intros Hw HS. unfold chunk_overlap, as_strided3. rewrite (div_S S w n Hw HS).
  apply (shape3_map_seq (fun i0 i1 i2 => nth (i0 * (w * 2 * hd / 2) + i1 * hd + i2 * 1) (concat x) 0%R)
                        (n * 2 - 1) (w * 2) hd).
Qed.

Lemma chunk_overlap_row S hd w x n ci xi :
  1 <= w -> length x = S -> S = w * 2 * n -> Forall (fun r => length r = hd) x ->
  ci < n * 2 - 1 -> xi < w * 2 ->
  nth xi (nth ci (chunk_overlap S hd w x) []) [] = nth (ci * w + xi) x [].
Proof.
  intros Hw Hx HS HF Hci Hxi.
  assert (Hrow : ci * w + xi < S) by nia.
  assert (Hin : In (nth (ci * w + xi) x []) x) by (apply nth_In; lia).
  rewrite Forall_forall in HF. specialize (HF _ Hin) as Hl. rewrite <- Forall_forall in HF.
  unfold chunk_overlap, as_strided3. rewrite (div_S S w n Hw HS).
  rewrite nth_map_lt with (d' := 0) by (rewrite length_seq; exact Hci). rewrite seq_nth by exact Hci.
  rewrite nth_map_lt with (d' := 0) by (rewrite length_seq; exact Hxi). rewrite seq_nth by exact Hxi.
  apply nth_ext with (d := 0%R) (d' := 0%R); rewrite ?length_map, ?length_seq; [lia|].
  intros a Ha.
  rewrite nth_map_lt with (d' := 0) by (rewrite length_seq; exact Ha). rewrite seq_nth by exact Ha.
  replace (w * 2 * hd / 2) with (w * hd)
    by (replace (w * 2 * hd) with (w * hd * 2) by lia; symmetry; apply Nat.div_mul; lia).
  replace ((0 + ci) * (w * hd) + (0 + xi) * hd + (0 + a) * 1) with ((ci * w + xi) * hd + a) by nia.
  apply nth_concat_uniform; [exact HF|lia].
Qed.

Lemma matmul_nt_entry A B x y :
  x < length A -> y < length B ->
  nth y (nth x (matmul_nt A B) []) 0%R = dot (nth x A []) (nth y B []).
Proof.
  intros Hx Hy. unfold matmul_nt.
  rewrite nth_map_lt with (d' := []) by exact Hx.
  rewrite nth_map_lt with (d' := []) by exact Hy. reflexivity.
Qed.

Lemma skew_entry w pad C x j :
  length C = w * 2 -> Forall (fun r => length r = w * 2) C ->
  x < w * 2 -> j < w * 2 + 1 ->
  nth j (nth x (skew w pad C) []) 0%R
  = if x + j <? w * 2 then nth (x + j) (nth x C []) 0%R
    else nth (x + j - w * 2) (nth (x + 1) (C ++ [repeat pad (w * 2)]) []) 0%R.
Proof.
  intros HL HF Hx Hj. unfold skew.
  rewrite nth_view_rows by lia.
  assert (HF' : Forall (fun r => length r = w * 2) (C ++ [repeat pad (w * 2)]))
    by (apply Forall_app; split; [exact HF|constructor; [apply repeat_length|constructor]]).
  destruct (Nat.ltb_spec (x + j) (w * 2)) as [Hlt|Hge].
  - replace (x * (w * 2 + 1) + j) with (x * (w * 2) + (x + j)) by nia.
    rewrite nth_concat_uniform with (n := w * 2) by assumption.
    rewrite app_nth1 by lia. reflexivity.
  - replace (x * (w * 2 + 1) + j) with ((x + 1) * (w * 2) + (x + j - w * 2)) by nia.
    rewrite nth_concat_uniform with (n := w * 2) by (assumption || lia). reflexivity.
Qed.

Lemma skipn_repeat_n {A} (a : A) k m : skipn k (repeat a m) = repeat a (m - k).
Proof.
  revert m. induction k as [|k IH]; intros m; [now rewrite Nat.sub_0_r|].
  destruct m; [reflexivity|]. simpl. apply IH.
Qed.

Lemma beginning_mask_entry w r c :
  nth c (nth r (beginning_mask w) []) false = (r + c <? w).
Proof.
  unfold beginning_mask. cbv zeta.
  destruct (Nat.lt_ge_cases r w) as [Hr|Hr].
  2:{ rewrite (@nth_overflow _ _ r ([] : list bool)) by (rewrite length_map, length_seq; lia).
      destruct c; symmetry; apply Nat.ltb_ge; lia. }
  rewrite nth_map_lt with (d' := 0) by (rewrite length_seq; exact Hr). rewrite seq_nth by exact Hr.
  destruct (Nat.le_gt_cases c w) as [Hc|Hc].
  2:{ rewrite nth_overflow by (rewrite !length_map, length_seq; lia). symmetry; apply Nat.ltb_ge; lia. }
  rewrite nth_map_lt with (d' := []) by (rewrite length_map, length_seq; lia).
  rewrite nth_map_lt with (d' := 0) by (rewrite length_seq; lia). rewrite seq_nth by lia.
  unfold diagonal_mask, Py.fill, Py.lo, Py.hi. rewrite repeat_length.
  replace (- (Z.of_nat (0 + c) - Z.of_nat w))%Z with (Z.of_nat (w - c)) by lia.
  rewrite norm_pos. rewrite Nat.min_l by lia. rewrite Nat.sub_0_r. simpl firstn. simpl app.
  destruct (Nat.ltb_spec (0 + r) (w - c)) as [H1|H1].
  - rewrite app_nth1 by (rewrite repeat_length; lia). rewrite nth_repeat_lt by lia.
    symmetry; apply Nat.ltb_lt; lia.
  - rewrite app_nth2 by (rewrite repeat_length; lia). rewrite repeat_length.
    rewrite skipn_repeat_n. destruct (Nat.lt_ge_cases (r - (w - c)) (w - (0 + (w - c)))).
    + rewrite nth_repeat_lt by lia. symmetry; apply Nat.ltb_ge; lia.
    + rewrite nth_overflow by (rewrite repeat_length; lia). symmetry; apply Nat.ltb_ge; lia.
Qed.

Lemma length_beginning_mask w : length (beginning_mask w) = w /\
  Forall (fun r => length r = w + 1) (beginning_mask w).
Proof.
  unfold beginning_mask. cbv zeta. rewrite length_map, length_seq. split; [reflexivity|].
  apply Forall_forall. intros r Hr. apply in_map_iff in Hr as (i & <- & _).
  now rewrite !length_map, length_seq.
Qed.

Lemma ending_mask_entry w r c :
  nth c (nth r (ending_mask w) []) false = (r <? w) && (c <=? w) && (w <=? r + c).
Proof.
  destruct (length_beginning_mask w) as [L F].
  unfold ending_mask.
  destruct (Nat.lt_ge_cases r w) as [Hr|Hr].
  2:{ rewrite (@nth_overflow _ _ r ([] : list bool)) by (rewrite length_rev, length_map; lia).
      destruct c; replace (r <? w) with false by (symmetry; apply Nat.ltb_ge; lia); reflexivity. }
  rewrite rev_nth by (rewrite length_map; lia). rewrite length_map, L.
  rewrite nth_map_lt with (d' := []) by lia.
  assert (Hrow : length (nth (w - S r) (beginning_mask w) []) = w + 1).
  { rewrite Forall_forall in F. apply F, nth_In. lia. }
  replace (r <? w) with true by (symmetry; apply Nat.ltb_lt; lia). simpl andb.
  destruct (Nat.le_gt_cases c w) as [Hc|Hc].
  2:{ rewrite nth_overflow by (rewrite length_rev; lia).
      replace (c <=? w) with false by (symmetry; apply Nat.leb_gt; lia). reflexivity. }
  rewrite rev_nth by lia. rewrite Hrow, beginning_mask_entry.
  replace (c <=? w) with true by (symmetry; apply Nat.leb_le; lia). simpl andb.
  destruct (Nat.leb_spec w (r + c)); [apply Nat.ltb_lt|apply Nat.ltb_ge]; lia.
Qed.

Lemma masked_fill_at_shape t r0 c0 m :
  length (masked_fill_at t r0 c0 m) = length t /\
  forall i, length (nth i (masked_fill_at t r0 c0 m) []) = length (nth i t []).
Proof.
  unfold masked_fill_at. rewrite length_map, length_combine, length_seq, Nat.min_id. split; [reflexivity|].
  intros i. destruct (Nat.lt_ge_cases i (length t)) as [Hi|Hi].
  - rewrite nth_map_lt with (d' := (0, [])) by (rewrite length_combine, length_seq; lia).
    rewrite combine_nth by (rewrite length_seq; reflexivity). simpl.
    rewrite length_map, length_combine, length_seq. lia.
  - rewrite !nth_overflow; [reflexivity| |]; rewrite ?length_map, ?length_combine, ?length_seq; lia.
Qed.

Lemma masked_fill_at_entry t r0 c0 m i j :
  i < length t -> j < length (nth i t []) ->
  nth j (nth i (masked_fill_at t r0 c0 m) []) NInf
  = if (r0 <=? i) && (c0 <=? j) && nth (j - c0) (nth (i - r0) m []) false then NInf
    else nth j (nth i t []) NInf.
Proof.
  intros Hi Hj. unfold masked_fill_at.
  rewrite nth_map_lt with (d' := (0, [])) by (rewrite length_combine, length_seq; lia).
  rewrite combine_nth by (rewrite length_seq; reflexivity). rewrite seq_nth by exact Hi. simpl fst. simpl snd.
  rewrite nth_map_lt with (d' := (0, NInf)) by (rewrite length_combine, length_seq; lia).
  rewrite combine_nth by (rewrite length_seq; reflexivity). rewrite seq_nth by exact Hj.
  reflexivity.
Qed.

Lemma mask_invalid_entry w T tab t c :
  1 <= w -> w <= T -> length tab = T -> Forall (fun r => length r = w * 2 + 1) tab ->
  t < T -> c < w * 2 + 1 ->
  nth c (nth t (mask_invalid_locations w tab) []) NInf
  = if (t + c <? w) || (T + w <=? t + c) then NInf else nth c (nth t tab []) NInf.
Proof.
  intros Hw HT HL HF Ht Hc.
  assert (Hrow : length (nth t tab []) = w * 2 + 1) by (rewrite Forall_forall in HF; apply HF, nth_In; lia).
  destruct (length_beginning_mask w) as [Lb _].
  unfold mask_invalid_locations. rewrite HL.
  destruct (masked_fill_at_shape tab 0 0 (Py.getslice (beginning_mask w) None (Some (Z.of_nat T)))) as [L1 R1].
  rewrite masked_fill_at_entry by (rewrite ?L1, ?R1; lia).
  rewrite masked_fill_at_entry by lia.
  rewrite getslice_upto_all by lia.
  assert (He : Py.getslice (ending_mask w) (Some (- Z.of_nat T)%Z) None = ending_mask w).
  { unfold Py.getslice, Py.lo, Py.hi, Py.norm. unfold ending_mask. rewrite length_rev, length_map, Lb.
    replace (- Z.of_nat T <? 0)%Z with true by (symmetry; apply Z.ltb_lt; lia).
    replace (Z.to_nat (Z.max 0 (- Z.of_nat T + Z.of_nat w))) with 0 by lia.
    simpl skipn. rewrite Nat.sub_0_r. apply firstn_all2. rewrite length_rev, length_map, Lb. lia. }
  rewrite He, ending_mask_entry, beginning_mask_entry.
  replace (Py.lo T (Some (- Z.of_nat w)%Z)) with (T - w) by norm_lia.
  replace (Py.lo (w * 2 + 1) (Some (- (Z.of_nat w + 1))%Z)) with w by norm_lia.
  rewrite !Nat.sub_0_r.
  destruct (Nat.ltb_spec (t + c) w); destruct (Nat.leb_spec (T + w) (t + c));
  destruct (Nat.leb_spec (T - w) t); destruct (Nat.leb_spec w c);
  destruct (Nat.ltb_spec (t - (T - w)) w); destruct (Nat.leb_spec (c - w) w);
  destruct (Nat.leb_spec w (t - (T - w) + (c - w))); simpl; try reflexivity; lia.
Qed.

Lemma length_nth_view_rows {A} n k (l : list A) i :
  i < k -> n * k <= length l -> length (nth i (view_rows n k l) []) = n.
Proof.
  revert l i; induction k as [|k IH]; intros l i Hi Hl; [lia|].
  destruct i as [|i]; simpl.
  - rewrite length_firstn. lia.
  - apply IH; [lia|]. rewrite length_skipn. lia.
Qed.

Lemma length_concat_uniform {A} n (rows : list (list A)) :
  Forall (fun x => length x = n) rows -> length (concat rows) = length rows * n.
Proof.
  induction 1 as [|x xs Hx HF IH]; [reflexivity|]. simpl. rewrite length_app, IH, Hx. lia.
Qed.

Lemma skew_shape w pad C :
  length C = w * 2 -> Forall (fun r => length r = w * 2) C ->
  length (skew w pad C) = w * 2 /\
  forall x, x < w * 2 -> length (nth x (skew w pad C) []) = w * 2 + 1.
Proof.
  intros HL HF. unfold skew. rewrite length_view_rows. split; [reflexivity|].
  intros x Hx. apply length_nth_view_rows; [exact Hx|].
  rewrite (length_concat_uniform (w * 2)).
  - rewrite length_app, HL. simpl. lia.
  - apply Forall_app; split; [exact HF|constructor; [apply repeat_length|constructor]].
Qed.

Lemma matmul_nt_shape A B :
  length (matmul_nt A B) = length A /\ Forall (fun r => length r = length B) (matmul_nt A B).
Proof.
  unfold matmul_nt. rewrite length_map. split; [reflexivity|].
  apply Forall_forall. intros r Hr. apply in_map_iff in Hr as (a & <- & _). apply length_map.
Qed.

Lemma dca_entry w pad hd q k n ci x j :
  1 <= w -> length q = w * 2 * n -> length k = w * 2 * n ->
  Forall (fun r => length r = hd) q -> Forall (fun r => length r = hd) k ->
  ci < n * 2 - 1 -> x < w * 2 -> j < w * 2 + 1 -> x + j < w * 2 \/ x + 1 < w * 2 ->
  nth j (nth x (nth ci (map (fun c => map (map Fin) (skew w pad c))
    (map (fun p => matmul_nt (fst p) (snd p))
       (combine (chunk_overlap (length q) hd w q) (chunk_overlap (length q) hd w k)))) []) []) NInf
  = if x + j <? w * 2 then Fin (dot (nth (ci * w + x) q []) (nth (ci * w + (x + j)) k []))
    else Fin (dot (nth (ci * w + (x + 1)) q []) (nth (ci * w + (x + j - w * 2)) k [])).
Proof.
  intros Hw Hq Hk Fq Fk Hci Hx Hj Hcase.
  destruct (chunk_overlap_shape (length q) hd w q n Hw Hq) as [Lq Sq].
  destruct (chunk_overlap_shape (length q) hd w k n Hw Hq) as [Lk Sk].
  set (Cq := chunk_overlap (length q) hd w q) in *.
  set (Ck := chunk_overlap (length q) hd w k) in *.
  assert (Hcq : length (nth ci Cq []) = w * 2) by (rewrite Forall_forall in Sq; apply Sq, nth_In; lia).
  assert (Hck : length (nth ci Ck []) = w * 2) by (rewrite Forall_forall in Sk; apply Sk, nth_In; lia).
  rewrite nth_map_lt with (d' := []) by (rewrite length_map, length_combine; lia).
  rewrite nth_map_lt with (d' := ([], [])) by (rewrite length_combine; lia).
  rewrite combine_nth by lia. simpl fst. simpl snd.
  destruct (matmul_nt_shape (nth ci Cq []) (nth ci Ck [])) as [LM FM].
  rewrite Hck in FM. rewrite Hcq in LM.
  destruct (skew_shape w pad _ LM FM) as [LS RS].
  rewrite nth_map_lt with (d' := []) by lia.
  rewrite nth_map_lt with (d' := 0%R) by (rewrite RS; lia).
  rewrite skew_entry by assumption.
  assert (Hrowq : forall xi, xi < w * 2 -> nth xi (nth ci Cq []) [] = nth (ci * w + xi) q [])
    by (intros xi Hxi; apply (chunk_overlap_row (length q) hd w q n); auto).
  assert (Hrowk : forall xi, xi < w * 2 -> nth xi (nth ci Ck []) [] = nth (ci * w + xi) k [])
    by (intros xi Hxi; apply (chunk_overlap_row (length q) hd w k n); auto; lia).
  destruct (Nat.ltb_spec (x + j) (w * 2)) as [H1|H1].
  - rewrite matmul_nt_entry by lia. rewrite Hrowq, Hrowk by lia. reflexivity.
  - rewrite app_nth1 by lia. rewrite matmul_nt_entry by lia. rewrite Hrowq, Hrowk by lia. reflexivity.
Qed.

Lemma set3_at {A} (d : A) t n0 n1 n2 s0 s1 s2 src m0 m1 m2 a0 a1 a2 e0 e1 e2 :
  Py.lo n0 (fst s0) = a0 -> Py.lo n1 (fst s1) = a1 -> Py.lo n2 (fst s2) = a2 ->
  extent n0 s0 = e0 -> extent n1 s1 = e1 -> extent n2 s2 = e2 ->
  m0 = e0 -> m1 = e1 -> m2 = e2 ->
  exists t', set3 d t n0 n1 n2 s0 s1 s2 src m0 m1 m2 = Some t' /\
  length t' = n0 /\ Forall (fun m => length m = n1 /\ Forall (fun r => length r = n2) m) t' /\
  forall i0 i1 i2, i0 < n0 -> i1 < n1 -> i2 < n2 ->
  nth i2 (nth i1 (nth i0 t' []) []) d
  = if in_range a0 e0 i0 && in_range a1 e1 i1 && in_range a2 e2 i2
    then nth (i2 - a2) (nth (i1 - a1) (nth (i0 - a0) src []) []) d
    else nth i2 (nth i1 (nth i0 t []) []) d.
Proof.
  intros A0 A1 A2 E0 E1 E2 M0 M1 M2. subst m0 m1 m2.
  assert (Hc : forall e, compat e e = true) by (intros e; unfold compat; rewrite Nat.eqb_refl; reflexivity).
  destruct (set3_some d t n0 n1 n2 s0 s1 s2 src e0 e1 e2) as (t' & Et & Lt & Ft & Vt);
    [rewrite E0; apply Hc|rewrite E1; apply Hc|rewrite E2; apply Hc|].
  exists t'. split; [exact Et|]. split; [exact Lt|]. split; [exact Ft|].
  intros i0 i1 i2 H0 H1 H2. rewrite Vt by assumption. rewrite A0, A1, A2, E0, E1, E2.
  unfold in_range.
  destruct (Nat.leb_spec a0 i0), (Nat.ltb_spec i0 (a0 + e0)); simpl; try reflexivity.
  destruct (Nat.leb_spec a1 i1), (Nat.ltb_spec i1 (a1 + e1)); simpl; try reflexivity.
  destruct (Nat.leb_spec a2 i2), (Nat.ltb_spec i2 (a2 + e2)); simpl; try reflexivity.
  rewrite !bcast_lt by lia. reflexivity.
Qed.

Lemma get3_at {A} (t : list (list (list A))) N0 N1 N2 s0 s1 s2 b0 b1 b2 f0 f1 f2 i0 i1 i2 d :
  length t = N0 -> Forall (fun m => length m = N1 /\ Forall (fun r => length r = N2) m) t ->
  Py.lo N0 (fst s0) = b0 -> Py.lo N1 (fst s1) = b1 -> Py.lo N2 (fst s2) = b2 ->
  extent N0 s0 = f0 -> extent N1 s1 = f1 -> extent N2 s2 = f2 ->
  i0 < f0 -> i1 < f1 -> i2 < f2 ->
  nth i2 (nth i1 (nth i0 (get3 t s0 s1 s2) []) []) d = nth (b2 + i2) (nth (b1 + i1) (nth (b0 + i0) t []) []) d.
Proof.
  intros L F B0 B1 B2 F0 F1 F2 H0 H1 H2. subst.
  apply get3_entry with (N0 := length t); auto.
Qed.

Lemma mask_invalid_shape w tab :
  length (mask_invalid_locations w tab) = length tab /\
  forall i, length (nth i (mask_invalid_locations w tab) []) = length (nth i tab []).
Proof.
  unfold mask_invalid_locations.
  match goal with |- context [masked_fill_at (masked_fill_at tab 0 0 ?m1) ?r0 ?c0 ?m2] =>
    destruct (masked_fill_at_shape tab 0 0 m1) as [L1 R1];
    destruct (masked_fill_at_shape (masked_fill_at tab 0 0 m1) r0 c0 m2) as [L2 R2] end.
  split; [congruence|]. intros i. rewrite R2, R1. reflexivity.
Qed.

Ltac set3_step a0 a1 a2 e0 e1 e2 t' L F V :=
  match goal with |- context [set3 NInf ?t ?n0 ?n1 ?n2 ?s0 ?s1 ?s2 ?src ?m0 ?m1 ?m2] =>
    let E := fresh "E" in
    destruct (set3_at NInf t n0 n1 n2 s0 s1 s2 src m0 m1 m2 a0 a1 a2 e0 e1 e2) as (t' & E & L & F & V);
    [norm_lia ..|]; rewrite E; cbn [Cache.obind] end.

Ltac if_true :=
  match goal with |- context [if ?b then _ else _] =>
    replace b with true by (symmetry; unfold in_range; repeat (apply andb_true_intro; split);
                            first [apply Nat.leb_le | apply Nat.ltb_lt]; lia) end;
  cbv iota.

Ltac if_false :=
  match goal with |- context [if ?b then _ else _] =>
    let Hb := fresh in
    replace b with false by (symmetry; destruct b eqn:Hb; [|reflexivity]; exfalso; unfold in_range in Hb;
      repeat rewrite andb_true_iff in Hb; repeat rewrite Nat.leb_le in Hb; repeat rewrite Nat.ltb_lt in Hb; lia) end;
  cbv iota.

(** [sliding_chunks_matmul_qk] on [S] frames, [S] a positive multiple
    of [2w] and [w >= 2]: entry [(t, c)] of the result is the score
    [q_t . k_(t + c - w)] whenever key [t + c - w] lies in [0, S), and
    [-inf] otherwise, whatever [new_empty] left in the buffer and whatever
    the padding value. *)
Theorem sliding_chunks_matmul_qk_band junk w pad hd q k :
  2 <= w -> length k = length q -> length q mod (w * 2) = 0 -> 0 < length q ->
  Forall (fun r => length r = hd) q -> Forall (fun r => length r = hd) k ->
  sliding_chunks_matmul_qk junk w pad hd q k =
  Some (map (fun t => map (fun c =>
      if (w <=? t + c) && (t + c <? length q + w)
      then Fin (dot (nth t q []) (nth (t + c - w) k [])) else NInf)
    (seq 0 (w * 2 + 1))) (seq 0 (length q))).
Proof.
  intros Hw Hk Hmod Hpos Fq Fk.
  destruct (Nat.div_mod_eq (length q) (w * 2)) as [].
  set (n := length q / (w * 2)).
  assert (HS : length q = w * 2 * n) by (pose proof (Nat.div_mod_eq (length q) (w * 2)); unfold n; lia).
  assert (Hn : 1 <= n) by nia.
  assert (Hcc : length q / w = n * 2)
    by (rewrite HS; replace (w * 2 * n) with (n * 2 * w) by lia; apply Nat.div_mul; lia).
  unfold sliding_chunks_matmul_qk.
  replace (length q mod (w * 2) =? 0) with true by (symmetry; apply Nat.eqb_eq; exact Hmod).
  replace (length k =? length q) with true by (symmetry; apply Nat.eqb_eq; exact Hk).
  replace (length q =? 0) with false by (symmetry; apply Nat.eqb_neq; lia).
  rewrite Hcc. change (negb true || negb true || false) with false. cbv beta iota zeta.
  replace (n * 2 - 1 + 1) with (n * 2) by lia.
  destruct (chunk_overlap_shape (length q) hd w q n) as [Lq Sq]; [lia|exact HS|].
  destruct (chunk_overlap_shape (length q) hd w k n) as [Lk Sk]; [lia|exact HS|].
  assert (Ldca : length (map (fun c => map (map Fin) (skew w pad c))
    (map (fun p => matmul_nt (fst p) (snd p))
       (combine (chunk_overlap (length q) hd w q) (chunk_overlap (length q) hd w k)))) = n * 2 - 1)
    by (rewrite !length_map, length_combine; lia).
  assert (Fdca : Forall (fun m => length m = w * 2 /\ Forall (fun r => length r = w * 2 + 1) m)
    (map (fun c => map (map Fin) (skew w pad c))
    (map (fun p => matmul_nt (fst p) (snd p))
       (combine (chunk_overlap (length q) hd w q) (chunk_overlap (length q) hd w k))))).
  { apply Forall_forall. intros m Hm.
    apply in_map_iff in Hm as (C & <- & HC). apply in_map_iff in HC as ([a b] & <- & Hab).
    pose proof (in_combine_l _ _ _ _ Hab) as Ha. pose proof (in_combine_r _ _ _ _ Hab) as Hb.
    rewrite Forall_forall in Sq, Sk. destruct (Sq a Ha) as [La _]. destruct (Sk b Hb) as [Lb _].
    simpl fst. simpl snd.
    destruct (matmul_nt_shape a b) as [LM FM]. rewrite La in LM. rewrite Lb in FM.
    destruct (skew_shape w pad _ LM FM) as [LS RS].
    rewrite length_map, LS. split; [reflexivity|].
    apply Forall_forall. intros r Hr. apply In_nth with (d := []) in Hr as (x & Hx & <-).
    rewrite length_map in Hx. rewrite LS in Hx.
    rewrite nth_map_lt with (d' := []) by lia. rewrite length_map. apply RS. exact Hx. }
  set3_step 0 0 w (n * 2 - 1) w (w + 1) D1 L1 F1 V1.
  set3_step (n * 2 - 1) 0 w 1 w (w + 1) D2 L2 F2 V2.
  set3_step 1 0 0 (n * 2 - 1) w w D3 L3 F3 V3.
  set3_step 0 1 1 1 (w - 1) (w - 1) D4 L4 F4 V4.
  assert (Core : forall ci r c, ci < n * 2 -> r < w -> c < w * 2 + 1 ->
    w <= ci * w + r + c -> ci * w + r + c < length q + w ->
    nth c (nth r (nth ci D4 []) []) NInf = Fin (dot (nth (ci * w + r) q []) (nth (ci * w + r + c - w) k []))).
  { intros ci r c Hci Hr Hc Hlo Hhi.
    rewrite V4 by lia.
    destruct (Nat.ltb_spec c w) as [Hcw|Hcw].
    - destruct (Nat.eqb_spec ci 0) as [->|Hci0].
      + if_true.
        rewrite get3_at with (N0 := n * 2 - 1) (N1 := w * 2) (N2 := w * 2 + 1)
          (b0 := 0) (b1 := 0) (b2 := w + 2) (f0 := 1) (f1 := w - 1) (f2 := w - 1)
          by (first [exact Ldca | exact Fdca | norm_lia | lia]).
        rewrite dca_entry with (n := n) by (first [assumption | lia]).
        match goal with |- context [(?a <? ?b)] => destruct (Nat.ltb_spec a b); try (exfalso; lia) end.
        do 2 f_equal; f_equal; nia.
      + if_false. rewrite V3 by lia. if_true.
        rewrite get3_at with (N0 := n * 2 - 1) (N1 := w * 2) (N2 := w * 2 + 1)
          (b0 := 0) (b1 := w - 1) (b2 := w + 1) (f0 := n * 2 - 1) (f1 := w) (f2 := w)
          by (first [exact Ldca | exact Fdca | norm_lia | lia]).
        rewrite dca_entry with (n := n) by (first [assumption | lia]).
        match goal with |- context [(?a <? ?b)] => destruct (Nat.ltb_spec a b); try (exfalso; lia) end.
        do 2 f_equal; f_equal; nia.
    - if_false. rewrite V3 by lia. if_false. rewrite V2 by lia.
      destruct (Nat.ltb_spec ci (n * 2 - 1)) as [HA|HB].
      + if_false. rewrite V1 by lia. if_true.
        rewrite get3_at with (N0 := n * 2 - 1) (N1 := w * 2) (N2 := w * 2 + 1)
          (b0 := 0) (b1 := 0) (b2 := 0) (f0 := n * 2 - 1) (f1 := w) (f2 := w + 1)
          by (first [exact Ldca | exact Fdca | norm_lia | lia]).
        rewrite dca_entry with (n := n) by (first [assumption | lia]).
        match goal with |- context [(?a <? ?b)] => destruct (Nat.ltb_spec a b); try (exfalso; lia) end.
        do 2 f_equal; f_equal; nia.
      + if_true.
        assert (Hci' : ci = n * 2 - 1) by lia. subst ci.
        assert (Hrc : r + c < w * 2) by nia.
        rewrite get3_at with (N0 := n * 2 - 1) (N1 := w * 2) (N2 := w * 2 + 1)
          (b0 := n * 2 - 2) (b1 := w) (b2 := 0) (f0 := 1) (f1 := w) (f2 := w + 1)
          by (first [exact Ldca | exact Fdca | norm_lia | lia]).
        rewrite dca_entry with (n := n) by (first [assumption | lia]).
        match goal with |- context [(?a <? ?b)] => destruct (Nat.ltb_spec a b); try (exfalso; lia) end.
        do 2 f_equal; f_equal; nia. }
  f_equal.
  assert (FC : Forall (fun r => length r = w) D4) by (eapply Forall_impl; [|exact F4]; intros m [Hm _]; exact Hm).
  assert (LC : length (concat D4) = length q)
    by (rewrite (length_concat_uniform w) by exact FC; rewrite L4; nia).
  assert (RC : Forall (fun r => length r = w * 2 + 1) (concat D4)).
  { apply Forall_forall. intros r Hr. apply in_concat in Hr as (m & Hm & Hr).
    rewrite Forall_forall in F4. destruct (F4 m Hm) as [_ Fm]. rewrite Forall_forall in Fm. apply Fm, Hr. }
  destruct (mask_invalid_shape w (concat D4)) as [LM RM].
  apply nth_ext with (d := []) (d' := []).
  { rewrite LM, LC, length_map, length_seq. reflexivity. }
  intros t Ht. rewrite LM, LC in Ht.
  assert (Hrow : length (nth t (concat D4) []) = w * 2 + 1)
    by (rewrite Forall_forall in RC; apply RC, nth_In; lia).
  rewrite nth_map_lt with (d' := 0) by (rewrite length_seq; exact Ht). rewrite seq_nth by exact Ht.
  apply nth_ext with (d := NInf) (d' := NInf).
  { rewrite RM, Hrow, length_map, length_seq. reflexivity. }
  intros c Hc. rewrite RM, Hrow in Hc.
  rewrite nth_map_lt with (d' := 0) by (rewrite length_seq; exact Hc). rewrite seq_nth by exact Hc.
  rewrite !Nat.add_0_l.
  rewrite mask_invalid_entry with (T := length q) by (first [assumption | nia]).
  destruct (Nat.ltb_spec (t + c) w), (Nat.leb_spec (length q + w) (t + c)),
    (Nat.leb_spec w (t + c)), (Nat.ltb_spec (t + c) (length q + w));
    simpl orb; simpl andb; cbv iota; try reflexivity; try (exfalso; lia).
  pose proof (Nat.div_mod_eq t w) as Hdm.
  assert (Ht' : t / w * w + t mod w = t) by (rewrite Nat.mul_comm; lia).
  assert (Hmw : t mod w < w) by (apply Nat.mod_upper_bound; lia).
  assert (Hdw : t / w < n * 2) by (apply Nat.Div0.div_lt_upper_bound; nia).
  replace (nth t (concat D4) []) with (nth (t mod w) (nth (t / w) D4 []) []).
  2:{ rewrite <- nth_concat_uniform with (n := w) by assumption. f_equal. lia. }
  rewrite Core by lia. rewrite Ht'. reflexivity.
Qed.


Lemma obind_none {A B} (o : option A) (f : A -> option B) :
  (forall x, f x = None) -> Cache.obind o f = None.
Proof. intros H. destruct o; simpl; auto. Qed.

(** With [w = 0] ([seqlen % 0] raises) or [w = 1] (the last slice
    assignment has a source of width [3] for a target of width [0]),
    [sliding_chunks_matmul_qk] always raises. *)
Theorem sliding_chunks_matmul_qk_small_window junk w pad hd q k :
  w < 2 -> sliding_chunks_matmul_qk junk w pad hd q k = None.
Proof.
  intros Hw. unfold sliding_chunks_matmul_qk.
  destruct (negb (length q mod (w * 2) =? 0) || negb (length k =? length q) || (length q =? 0)) eqn:G;
    [reflexivity|].
  destruct w as [|[|w]]; [| |lia].
  - exfalso. rewrite !orb_false_iff, !negb_false_iff in G. destruct G as [[G1 _] G3].
    apply Nat.eqb_eq in G1. apply Nat.eqb_neq in G3. simpl in G1. lia.
  - cbv zeta. apply obind_none; intros da1. apply obind_none; intros da2. apply obind_none; intros da3.
    unfold set3. cbv zeta.
    match goal with |- context [compat ?a ?b && compat ?c ?d && compat ?e ?f] =>
      replace (compat e f) with false by reflexivity end.
    rewrite andb_false_r. reflexivity.
Qed.


Lemma skew2_row w X x :
  length X = w -> Forall (fun r => length r = w * 2 + 1) X -> x < w ->
  nth x (skew2 w 0%R X) [] = repeat 0%R x ++ nth x X [] ++ repeat 0%R (w - 1 - x).
Proof.
  intros HL HF Hx. unfold skew2. cbv zeta.
  assert (Fp : Forall (fun r => length r = w * 3 + 2) (map (fun r => r ++ repeat 0%R (w + 1)) X)).
  { apply Forall_forall. intros r Hr. apply in_map_iff in Hr as (r0 & <- & Hr0).
    rewrite Forall_forall in HF. rewrite length_app, repeat_length, (HF r0 Hr0). lia. }
  assert (Lc : length (concat (map (fun r => r ++ repeat 0%R (w + 1)) X)) = w * (w * 3 + 2))
    by (rewrite (length_concat_uniform (w * 3 + 2)) by exact Fp; rewrite length_map, HL; reflexivity).
  set (cp := concat (map (fun r => r ++ repeat 0%R (w + 1)) X)) in *.
  assert (Hhi : Py.hi (length cp) (Some (- Z.of_nat w)%Z) = w * (w * 3 + 1)).
  { rewrite Lc. unfold Py.hi, Py.norm. destruct (Z.ltb_spec (- Z.of_nat w) 0); nia. }
  assert (Lf : length (Py.getslice cp None (Some (- Z.of_nat w)%Z)) = w * (w * 3 + 1)).
  { rewrite length_getslice by (rewrite Hhi; nia). rewrite Hhi. simpl Py.lo. lia. }
  set (flat := Py.getslice cp None (Some (- Z.of_nat w)%Z)) in *.
  assert (Lr : length (nth x (view_rows (w + (w * 2 + 1)) w flat) []) = w * 3 + 1)
    by (rewrite length_nth_view_rows by (try rewrite Lf; nia); lia).
  rewrite nth_map_lt with (d' := []) by (rewrite length_view_rows; exact Hx).
  assert (Hrx : length (nth x X []) = w * 2 + 1) by (rewrite Forall_forall in HF; apply HF, nth_In; lia).
  apply nth_ext with (d := 0%R) (d' := 0%R).
  { rewrite length_getslice by (rewrite Lr; apply hi_le). rewrite Lr.
    rewrite !length_app, !repeat_length, Hrx. norm_lia. }
  intros j Hj.
  rewrite length_getslice in Hj by (rewrite Lr; apply hi_le). rewrite Lr in Hj.
  replace (Py.hi (w * 3 + 1) (Some (-1)%Z) - Py.lo (w * 3 + 1) None) with (w * 3) in Hj by norm_lia.
  rewrite nth_getslice by (rewrite Lr; norm_lia). rewrite Lr. simpl Py.lo. rewrite Nat.add_0_l.
  rewrite nth_view_rows by lia.
  unfold flat. rewrite nth_getslice by (rewrite Hhi; simpl Py.lo; nia). simpl Py.lo. rewrite Nat.add_0_l.
  destruct (Nat.le_gt_cases x j) as [Hxj|Hxj].
  - replace (x * (w + (w * 2 + 1)) + j) with (x * (w * 3 + 2) + (j - x)) by nia.
    unfold cp. rewrite nth_concat_uniform with (n := w * 3 + 2) by (first [exact Fp | lia]).
    rewrite nth_map_lt with (d' := []) by lia.
    rewrite (app_nth2 (repeat 0%R x)) by (rewrite repeat_length; lia). rewrite repeat_length.
    destruct (Nat.lt_ge_cases (j - x) (w * 2 + 1)).
    + rewrite !app_nth1 by lia. reflexivity.
    + rewrite !app_nth2 by lia. rewrite !nth_repeat. reflexivity.
  - replace (x * (w + (w * 2 + 1)) + j) with ((x - 1) * (w * 3 + 2) + (w * 3 + 2 + j - x)) by nia.
    unfold cp. rewrite nth_concat_uniform with (n := w * 3 + 2) by (first [exact Fp | lia]).
    rewrite nth_map_lt with (d' := []) by lia.
    assert (Hrx' : length (nth (x - 1) X []) = w * 2 + 1) by (rewrite Forall_forall in HF; apply HF, nth_In; lia).
    rewrite app_nth2 by lia. rewrite nth_repeat.
    rewrite app_nth1 by (rewrite repeat_length; lia). rewrite nth_repeat. reflexivity.
Qed.


Lemma dot_app a b c d : length a = length c -> dot (a ++ b) (c ++ d) = (dot a c + dot b d)%R.
Proof.
  revert c; induction a as [|x a IH]; intros [|y c] H; simpl in H; try lia.
  - unfold dot. simpl. lra.
  - unfold dot in *. simpl. rewrite IH by lia. lra.
Qed.

Lemma dot_repeat_zero m c : dot (repeat 0%R m) c = 0%R.
Proof.
  revert c; induction m as [|m IH]; intros [|y c]; unfold dot in *; simpl; try reflexivity.
  rewrite IH. lra.
Qed.

(** [sliding_chunks_matmul_pv] on [S] frames, [S] a multiple of [w]:
    output frame [t] is [sum_c prob[t][c] * v[t + c - w]], where a band
    position [t + c - w] outside [0, S) reads the padding value [-1]. *)
Theorem sliding_chunks_matmul_pv_band w hd prob v :
  1 <= w -> length v mod w = 0 -> length prob = length v ->
  Forall (fun r => length r = w * 2 + 1) prob -> Forall (fun r => length r = hd) v ->
  sliding_chunks_matmul_pv w (length v) hd prob v =
  map (fun t => map (fun e => dot (nth t prob [])
        (map (fun c => if (w <=? t + c) && (t + c <? length v + w)
                       then nth e (nth (t + c - w) v []) 0%R else (-1)%R) (seq 0 (w * 2 + 1))))
      (seq 0 hd)) (seq 0 (length v)).
Proof.
  intros Hw Hmod Hp Fp Fv.
  set (n := length v / w).
  assert (HS : length v = w * n) by (pose proof (Nat.div_mod_eq (length v) w); unfold n; lia).
  unfold sliding_chunks_matmul_pv. cbv zeta. fold n.
  destruct (Nat.eq_dec n 0) as [Hn0|Hn0].
  { rewrite Hn0. simpl. replace (length v) with 0 by nia. reflexivity. }
  set (padded := repeat (repeat (-1)%R hd) w ++ v ++ repeat (repeat (-1)%R hd) w).
  assert (Fpad : Forall (fun r => length r = hd) padded).
  { unfold padded. repeat (apply Forall_app; split); try exact Fv;
    apply Forall_forall; intros r Hr; apply repeat_spec in Hr; subst r; apply repeat_length. }
  set (skewed := map (skew2 w 0%R) (view_rows w n prob)).
  set (chunk_v := as_strided3 0%R (concat padded) (n - 1 + 1) (3 * w) hd (w * hd) hd 1).
  assert (Lsk : length skewed = n) by (unfold skewed; rewrite length_map, length_view_rows; reflexivity).
  assert (Lcv : length chunk_v = n) by (unfold chunk_v, as_strided3; rewrite length_map, length_seq; lia).
  assert (Hchunk : forall ci, ci < n -> length (nth ci (view_rows w n prob) []) = w /\
            Forall (fun r => length r = w * 2 + 1) (nth ci (view_rows w n prob) [])).
  { intros ci Hci. split; [apply length_nth_view_rows; lia|].
    apply Forall_forall. intros r Hr.
    apply In_nth with (d := []) in Hr as (i & Hi & <-).
    rewrite length_nth_view_rows in Hi by lia.
    rewrite nth_view_rows by lia. rewrite Forall_forall in Fp. apply Fp, nth_In. nia. }
  assert (Hskl : forall ci, ci < n -> length (nth ci skewed []) = w).
  { intros ci Hci. unfold skewed. rewrite nth_map_lt with (d' := []) by (rewrite length_view_rows; exact Hci).
    unfold skew2. cbv zeta. rewrite length_map, length_view_rows. reflexivity. }
  assert (Hctx : forall ci, ci < n ->
    nth ci (map (fun p => matmul (fst p) (snd p) hd) (combine skewed chunk_v)) []
    = matmul (nth ci skewed []) (nth ci chunk_v []) hd).
  { intros ci Hci. rewrite nth_map_lt with (d' := ([], [])) by (rewrite length_combine; lia).
    rewrite combine_nth by lia. reflexivity. }
  assert (Fctx : Forall (fun r => length r = w) (map (fun p => matmul (fst p) (snd p) hd) (combine skewed chunk_v))).
  { apply Forall_forall. intros m Hm. apply In_nth with (d := []) in Hm as (ci & Hci & <-).
    rewrite length_map, length_combine in Hci. rewrite Hctx by lia.
    unfold matmul. rewrite length_map. apply Hskl. lia. }
  apply nth_ext with (d := []) (d' := []).
  { rewrite (length_concat_uniform w) by exact Fctx.
    rewrite !length_map, length_combine, length_seq. nia. }
  intros t Ht. rewrite (length_concat_uniform w) in Ht by exact Fctx.
  rewrite length_map, length_combine in Ht.
  pose proof (Nat.div_mod_eq t w) as Hdm.
  assert (Hmw : t mod w < w) by (apply Nat.mod_upper_bound; lia).
  assert (Hdw : t / w < n) by (apply Nat.Div0.div_lt_upper_bound; nia).
  assert (Ht' : t / w * w + t mod w = t) by (rewrite Nat.mul_comm; lia).
  rewrite <- Ht' at 1. rewrite nth_concat_uniform with (n := w) by (first [exact Fctx | exact Hmw]).
  rewrite Hctx by exact Hdw.
  rewrite nth_map_lt with (d' := 0) by (rewrite length_seq; nia). rewrite seq_nth by nia. rewrite Nat.add_0_l.
  set (ci := t / w) in *. set (x := t mod w) in *.
  unfold matmul. rewrite nth_map_lt with (d' := []) by (rewrite Hskl; lia).
  apply map_ext_in. intros e He. apply in_seq in He.
  unfold skewed. rewrite nth_map_lt with (d' := []) by (rewrite length_view_rows; exact Hdw).
  destruct (Hchunk ci Hdw) as [Lch Fch].
  rewrite skew2_row by assumption.
  rewrite nth_view_rows by lia. rewrite Ht'.
  assert (Hpt : length (nth t prob []) = w * 2 + 1) by (rewrite Forall_forall in Fp; apply Fp, nth_In; lia).
  assert (Hcol : map (fun row => nth e row 0%R) (nth ci chunk_v [])
                 = map (fun i1 => nth e (nth (ci * w + i1) padded []) 0%R) (seq 0 (3 * w))).
  { unfold chunk_v, as_strided3.
    rewrite nth_map_lt with (d' := 0) by (rewrite length_seq; lia). rewrite seq_nth by lia.
    rewrite map_map. apply map_ext_in. intros i1 _.
    rewrite nth_map_lt with (d' := 0) by (rewrite length_seq; lia). rewrite seq_nth by lia.
    replace ((0 + ci) * (w * hd) + i1 * hd + (0 + e) * 1) with ((ci * w + i1) * hd + e) by nia.
    apply nth_concat_uniform; [exact Fpad|lia]. }
  rewrite Hcol.
  replace (3 * w) with (x + ((w * 2 + 1) + (w - 1 - x))) by lia.
  rewrite (seq_app x ((w * 2 + 1) + (w - 1 - x)) 0), (seq_app (w * 2 + 1) (w - 1 - x) (0 + x)), !map_app.
  rewrite dot_app by (rewrite repeat_length, length_map, length_seq; reflexivity).
  rewrite dot_app by (rewrite Hpt, length_map, length_seq; reflexivity).
  rewrite !dot_repeat_zero, Rplus_0_l, Rplus_0_r.
  rewrite map_seq_shift. f_equal. apply map_ext_in. intros c Hc. apply in_seq in Hc.
  replace (ci * w + (0 + x + c)) with (t + c) by lia.
  unfold padded.
  destruct (Nat.ltb_spec (t + c) w) as [H1|H1].
  - replace (w <=? t + c) with false by (symmetry; apply Nat.leb_gt; lia). simpl andb. cbv iota.
    rewrite app_nth1 by (rewrite repeat_length; lia). rewrite nth_repeat_lt by lia.
    apply nth_repeat_lt. lia.
  - replace (w <=? t + c) with true by (symmetry; apply Nat.leb_le; lia). simpl andb.
    rewrite app_nth2 by (rewrite repeat_length; lia). rewrite repeat_length.
    destruct (Nat.ltb_spec (t + c) (length v + w)) as [H2|H2]; cbv iota.
    + rewrite app_nth1 by lia. reflexivity.
    + rewrite app_nth2 by lia. rewrite nth_repeat_lt by lia. apply nth_repeat_lt. lia.
Qed.


(** [_chunk_overlap(x, w)] on [2 w n] frames gives [2n - 1] chunks;
    chunk [ci] is the [2w] frames from frame [ci * w] on, so consecutive
    chunks overlap by [w] frames. *)
Theorem chunk_overlap_windows S hd w x n :
  1 <= w -> length x = S -> S = w * 2 * n -> Forall (fun r => length r = hd) x ->
  chunk_overlap S hd w x = map (fun ci => firstn (w * 2) (skipn (ci * w) x)) (seq 0 (n * 2 - 1)).
Proof.
  intros Hw Hx HS HF.
  destruct (chunk_overlap_shape S hd w x n Hw HS) as [L F].
  apply nth_ext with (d := []) (d' := []).
  { rewrite L, length_map, length_seq. reflexivity. }
  intros ci Hci. rewrite L in Hci.
  rewrite nth_map_lt with (d' := 0) by (rewrite length_seq; exact Hci). rewrite seq_nth by exact Hci.
  assert (Hc : length (nth ci (chunk_overlap S hd w x) []) = w * 2)
    by (rewrite Forall_forall in F; apply F, nth_In; lia).
  apply nth_ext with (d := []) (d' := []).
  { rewrite Hc, length_firstn, length_skipn. nia. }
  intros xi Hxi. rewrite Hc in Hxi.
  rewrite (chunk_overlap_row S hd w x n ci xi) by assumption.
  rewrite nth_firstn_lt by exact Hxi. rewrite nth_skipn_add. reflexivity.
Qed.

(** [_skew2(x, 0)] on [w] rows of [2w + 1] entries: row [x] becomes [x]
    zeros, the original row, then [w - 1 - x] zeros (width [3w]). *)
Theorem skew2_rows w X :
  length X = w -> Forall (fun r => length r = w * 2 + 1) X ->
  skew2 w 0%R X = map (fun x => repeat 0%R x ++ nth x X [] ++ repeat 0%R (w - 1 - x)) (seq 0 w).
Proof.
  intros HL HF. apply nth_ext with (d := []) (d' := []).
  { unfold skew2. cbv zeta. rewrite !length_map, length_view_rows, length_seq. reflexivity. }
  intros x Hx. unfold skew2 in Hx. cbv zeta in Hx. rewrite length_map, length_view_rows in Hx.
  rewrite skew2_row by assumption.
  rewrite nth_map_lt with (d' := 0) by (rewrite length_seq; exact Hx). rewrite seq_nth by exact Hx.
  reflexivity.
Qed.

(** [mask_invalid_locations(x, w)] on [T >= w] rows of [2w + 1] band
    entries sets entry [(t, c)] to [-inf] exactly when the key [t + c - w]
    it stands for lies before the first frame or at or after frame [T],
    and leaves every other entry as it was. *)
Theorem mask_invalid_locations_band w T tab :
  1 <= w -> w <= T -> length tab = T -> Forall (fun r => length r = w * 2 + 1) tab ->
  mask_invalid_locations w tab
  = map (fun t => map (fun c => if (t + c <? w) || (T + w <=? t + c) then NInf else nth c (nth t tab []) NInf)
          (seq 0 (w * 2 + 1))) (seq 0 T).
Proof.
  intros Hw HT HL HF. destruct (mask_invalid_shape w tab) as [LM RM].
  apply nth_ext with (d := []) (d' := []).
  { rewrite LM, HL, length_map, length_seq. reflexivity. }
  intros t Ht. rewrite LM, HL in Ht.
  assert (Hrow : length (nth t tab []) = w * 2 + 1) by (rewrite Forall_forall in HF; apply HF, nth_In; lia).
  rewrite nth_map_lt with (d' := 0) by (rewrite length_seq; exact Ht). rewrite seq_nth by exact Ht.
  apply nth_ext with (d := NInf) (d' := NInf).
  { rewrite RM, Hrow, length_map, length_seq. reflexivity. }
  intros c Hc. rewrite RM, Hrow in Hc.
  rewrite nth_map_lt with (d' := 0) by (rewrite length_seq; exact Hc). rewrite seq_nth by exact Hc.
  rewrite !Nat.add_0_l. apply mask_invalid_entry; assumption.
Qed.

End BandProofs.

Section LocalForwardProofs.
Import PE.

Lemma getslice_to_length {A} (l : list A) z :
  length l = Z.to_nat z -> Py.getslice l None (Some z) = l.
Proof.
  intros H. destruct (Z_lt_le_dec z 0) as [Hz|Hz].
  - replace (Z.to_nat z) with 0 in H by lia.
    destruct l; [|discriminate]. unfold Py.getslice. simpl. apply firstn_nil.
  - replace z with (Z.of_nat (length l)) by lia. apply getslice_upto_all. lia.
Qed.

(** [LocalAttRelPositionalEncoding.forward] after any sequence of
    [extend_pe] calls returns the whole table: the slice [pe[:, :end_pos]]
    with [end_pos = left + right + 1] keeps every row of the table the first
    [extend_pe] built, the offsets [left] down to [-right]. *)
Theorem local_forward_whole_table {Row} (enc : Z -> Row) (left right L0 : Z) (Ls : list Z) :
  local_forward left right
    (fold_left (fun pe L => local_extend_pe enc left right L pe) Ls
               (local_extend_pe enc left right L0 None))
  = Some (create_pe enc (arange_desc left (- right - 1))).
Proof.
  assert (Hfold : forall t,
    fold_left (fun pe L => local_extend_pe enc left right L pe) Ls (Some t) = Some t).
  { induction Ls as [|L Ls IH]; intros t; simpl; auto. }
  simpl. rewrite Hfold. simpl. f_equal. apply getslice_to_length.
  unfold create_pe. rewrite length_map, length_arange_desc. f_equal. lia.
Qed.
End LocalForwardProofs.

Section ExtraWitnesses.
Import Sinusoid Banded.

Lemma pe_row_interleaved_witness :
  Nat.even 2 = true /\
  pe_row 2 3
  = concat (map (fun i => let w := Rpower 10000 (- INR (2 * i) / INR 2) in
                          [sin (IZR 3 * w); cos (IZR 3 * w)]%R) (seq 0 (2 / 2))).
Proof. split; [reflexivity|]. apply (pe_row_interleaved 2 3). reflexivity. Defined.

Lemma create_pe_rows_bounded_witness :
  create_pe 2 [0%Z; 1%Z] = Some (map (pe_row 2) [0%Z; 1%Z]) /\
  Forall (fun row => length row = 2 /\ Forall (fun x => (-1 <= x <= 1)%R) row)
    (map (pe_row 2) [0%Z; 1%Z]).
Proof.
  split; [reflexivity|]. apply (create_pe_rows_bounded 2 [0%Z; 1%Z]). reflexivity.
Defined.

Lemma pe_row_norm_witness :
  Nat.even 4 = true /\
  Attn.rsum (map (fun x => x * x)%R (pe_row 4 7)) = INR (4 / 2).
Proof. split; [reflexivity|]. apply (pe_row_norm 4 7). reflexivity. Defined.

Lemma abs_forward_prefix_witness :
  abs_forward None (Some [[1%R]; [2%R]; [3%R]]) [[4%R]; [5%R]]
  = Some (map (fun p => vadd (fst p) (snd p))
              (combine (scale_input None [[4%R]; [5%R]])
                       (firstn (length [[4%R]; [5%R]]) [[1%R]; [2%R]; [3%R]])),
          firstn (length [[4%R]; [5%R]]) [[1%R]; [2%R]; [3%R]]).
Proof.
  apply (abs_forward_prefix None [[1%R]; [2%R]; [3%R]] [[4%R]; [5%R]] 1);
    [repeat constructor | repeat constructor | simpl; lia].
Defined.

Lemma abs_extend_then_forward_witness :
  (2 = 1 \/ (Nat.even 2 = true /\ 1 <= 2)) /\
  match extend_pe 2 3 (extend_pe 2 1 None) with
  | Some t => abs_forward None (Some t) [[1%R; 2%R]; [3%R; 4%R]]
  | None => None
  end
  = Some (map (fun p => vadd (fst p) (snd p))
              (combine (scale_input None [[1%R; 2%R]; [3%R; 4%R]])
                       (map (pe_row 2) (PE.arange 0 (Z.of_nat 2)))),
          map (pe_row 2) (PE.arange 0 (Z.of_nat 2))).
Proof.
  split; [right; split; [reflexivity | lia]|].
  apply (abs_extend_then_forward 2 None [[1%R; 2%R]; [3%R; 4%R]] (extend_pe 2 1 None) 3);
    [right; split; [reflexivity | lia] | right; exists 1%Z; reflexivity | simpl; lia
    | repeat constructor].
Defined.

Lemma abs_forward_short_table_witness :
  abs_forward None (Some [[1%R]]) [[2%R]; [3%R]]
  = Some (map (fun row => vadd row [1%R]) (scale_input None [[2%R]; [3%R]]), [[1%R]]).
Proof.
  apply (proj2 (abs_forward_short_table None [[1%R]] [[2%R]; [3%R]] 1 ltac:(simpl; lia))
           [1%R]); [reflexivity | reflexivity | repeat constructor].
Defined.

Lemma forward_attention_masked_row_witness :
  nth 0 (Dense.forward_attention (unit_params 0 0) [[[1%R]; [2%R]]] [[[1%R; 2%R]]]
           (Some [[true; true]])) []
  = bias (linear_out (unit_params 0 0)).
Proof.
  apply (forward_attention_masked_row (unit_params 0 0) [[[1%R]; [2%R]]] [[[1%R; 2%R]]]
           [[true; true]] 0); [reflexivity | simpl; lia | repeat constructor].
Defined.

Lemma forward_attention_all_false_mask_witness :
  Dense.forward_attention (unit_params 0 0) [[[1%R]; [2%R]]] [[[1%R; 2%R]]]
    (Some (repeat (repeat false 2) 1))
  = Dense.forward_attention (unit_params 0 0) [[[1%R]; [2%R]]] [[[1%R; 2%R]]] None.
Proof.
  apply (forward_attention_all_false_mask (unit_params 0 0) [[[1%R]; [2%R]]] [[[1%R; 2%R]]] 1 2).
  repeat constructor.
Defined.

Lemma forward_single_key_witness :
  Dense.forward (unit_params 0 0) [[1%R]; [4%R]] [[2%R]] [[3%R]] None
  = repeat (linear (linear_out (unit_params 0 0)) (linear (linear_v (unit_params 0 0)) [3%R])) 2.
Proof.
  apply (forward_single_key (unit_params 0 0) [[1%R]; [4%R]] [2%R] [3%R]);
    [simpl; lia | reflexivity | reflexivity].
Defined.

Lemma update_cache_touches_one_slot_witness :
  Cache.update_cache {| Cache.cache_drop_size := Some 1%Z; Cache.cache_id := Some 1 |}
    [9] [8] [1; 2; 3] {| Cache.cache := Some [[4; 5]; [6; 7]]; Cache.cache_next := Some [[0; 0]; [0; 0]] |}
  = Some (([6; 7; 9], [6; 7; 9], [1; 2; 3]),
          {| Cache.cache := Some [[4; 5]; [6; 7]]; Cache.cache_next := Some [[0; 0]; [1; 2]] |}) /\
  [1; 2; 3] = [1; 2; 3] /\ Some [[4; 5]; [6; 7]] = Some [[4; 5]; [6; 7]] /\
  (length [[0; 0]; [1; 2]] = length [[0; 0]; [0; 0]] /\
   forall j, Some 1 <> Some j -> nth_error [[0; 0]; [1; 2]] j = nth_error [[0; 0]; [0; 0]] j).
Proof.
  assert (H : Cache.update_cache {| Cache.cache_drop_size := Some 1%Z; Cache.cache_id := Some 1 |}
    [9] [8] [1; 2; 3] {| Cache.cache := Some [[4; 5]; [6; 7]]; Cache.cache_next := Some [[0; 0]; [0; 0]] |}
  = Some (([6; 7; 9], [6; 7; 9], [1; 2; 3]),
          {| Cache.cache := Some [[4; 5]; [6; 7]]; Cache.cache_next := Some [[0; 0]; [1; 2]] |}))
    by reflexivity.
  split; [exact H|]. exact (update_cache_touches_one_slot _ _ _ _ _ _ _ _ _ H).
Defined.

Lemma update_cache_zero_keep_raises_witness :
  Cache.update_cache {| Cache.cache_drop_size := Some 2%Z; Cache.cache_id := Some 0 |}
    [9] [8] [1; 2] {| Cache.cache := Some [[4; 5]]; Cache.cache_next := Some [[0; 0]] |} = None.
Proof.
  apply (update_cache_zero_keep_raises _ [9] [8] [1; 2] [[4; 5]] [[0; 0]] 0 [4; 5] [0; 0]);
    [reflexivity | reflexivity | reflexivity | reflexivity | discriminate].
Defined.

Lemma sliding_chunks_matmul_qk_band_witness :
  sliding_chunks_matmul_qk NInf 2 0%R 1 [[1%R]; [2%R]; [3%R]; [4%R]] [[5%R]; [6%R]; [7%R]; [8%R]] =
  Some (map (fun t => map (fun c =>
      if (2 <=? t + c) && (t + c <? 4 + 2)
      then Fin (dot (nth t [[1%R]; [2%R]; [3%R]; [4%R]] []) (nth (t + c - 2) [[5%R]; [6%R]; [7%R]; [8%R]] []))
      else NInf)
    (seq 0 (2 * 2 + 1))) (seq 0 4)).
Proof.
  apply (sliding_chunks_matmul_qk_band NInf 2 0%R 1 [[1%R]; [2%R]; [3%R]; [4%R]] [[5%R]; [6%R]; [7%R]; [8%R]]);
    first [lia | reflexivity | repeat constructor].
Defined.

Lemma sliding_chunks_matmul_qk_small_window_witness :
  sliding_chunks_matmul_qk NInf 1 0%R 1 [[1%R]; [2%R]] [[3%R]; [4%R]] = None.
Proof. apply (sliding_chunks_matmul_qk_small_window NInf 1 0%R 1 [[1%R]; [2%R]] [[3%R]; [4%R]]). lia. Defined.

Lemma sliding_chunks_matmul_pv_band_witness :
  sliding_chunks_matmul_pv 1 2 1 [[1%R; 0%R; 0%R]; [0%R; 1%R; 0%R]] [[5%R]; [6%R]] =
  map (fun t => map (fun e => dot (nth t [[1%R; 0%R; 0%R]; [0%R; 1%R; 0%R]] [])
        (map (fun c => if (1 <=? t + c) && (t + c <? 2 + 1)
                       then nth e (nth (t + c - 1) [[5%R]; [6%R]] []) 0%R else (-1)%R) (seq 0 (1 * 2 + 1))))
      (seq 0 1)) (seq 0 2).
Proof.
  apply (sliding_chunks_matmul_pv_band 1 1 [[1%R; 0%R; 0%R]; [0%R; 1%R; 0%R]] [[5%R]; [6%R]]);
    first [lia | reflexivity | repeat constructor].
Defined.

Lemma chunk_overlap_windows_witness :
  chunk_overlap 4 1 1 [[1%R]; [2%R]; [3%R]; [4%R]]
  = map (fun ci => firstn (1 * 2) (skipn (ci * 1) [[1%R]; [2%R]; [3%R]; [4%R]])) (seq 0 (2 * 2 - 1)).
Proof.
  apply (chunk_overlap_windows 4 1 1 [[1%R]; [2%R]; [3%R]; [4%R]] 2);
    first [lia | reflexivity | repeat constructor].
Defined.

Lemma skew2_rows_witness :
  skew2 2 0%R [[1; 2; 3; 4; 5]; [6; 7; 8; 9; 10]]%R
  = [[1; 2; 3; 4; 5; 0]; [0; 6; 7; 8; 9; 10]]%R.
Proof.
  rewrite (skew2_rows 2 [[1; 2; 3; 4; 5]; [6; 7; 8; 9; 10]]%R);
    [reflexivity | reflexivity | repeat constructor].
Defined.

Lemma mask_invalid_locations_band_witness :
  mask_invalid_locations 1 [[Fin 1%R; Fin 2%R; Fin 3%R]; [Fin 4%R; Fin 5%R; Fin 6%R]]
  = map (fun t => map (fun c => if (t + c <? 1) || (2 + 1 <=? t + c) then NInf
                                else nth c (nth t [[Fin 1%R; Fin 2%R; Fin 3%R]; [Fin 4%R; Fin 5%R; Fin 6%R]] []) NInf)
          (seq 0 (1 * 2 + 1))) (seq 0 2).
Proof.
  apply (mask_invalid_locations_band 1 2 [[Fin 1%R; Fin 2%R; Fin 3%R]; [Fin 4%R; Fin 5%R; Fin 6%R]]);
    first [lia | reflexivity | repeat constructor].
Defined.

Lemma combine_row_symmetric_witness :
  combine_row Nat.add (fun x => x) 0 1 (Z.of_nat 1) (Z.of_nat 1) [1; 2; 3] [4; 5; 6]
  = Some [5; 7; 9].
Proof. apply (combine_row_symmetric Nat.add (fun x => x) 0 1 [1; 2; 3] [4; 5; 6]); reflexivity. Defined.

End ExtraWitnesses.
